(** * The interactive prompt of the kanban CLI

    Source: the second module of [src/utils/tasks.mjs], which the tasks import
    as [utils/cli.mjs]; line numbers are those of that file.

    A shallow embedding of [askQuestion] and [askFileInput]: the prompt's
    closure variables become a record that every event handler maps to a new
    record, the terminal input becomes a list of events, the file system a
    finite map from paths to contents.

    Conventions.
    - JavaScript strings are [string]s; [toLowerCase] folds the ASCII letters
      only, so names and filters are taken to be ASCII text (the marker of an
      injected command is compared byte by byte, which is exact).
    - JavaScript numbers that hold indices are [Z].
    - An object has an identity ([===] on objects compares references): an
      option that the caller passed as an object carries the caller's
      reference, one made from a string at line 51 is fresh.
    - [Array.prototype.sort] belongs to the host.  The prompt is defined over
      any host sort that permutes its argument ([ArraySort]); module [V8]
      gives the sort that Node runs on arrays of fewer than 64 elements.
    - Rendering ([getPrompt], [render]) writes to the terminal and changes
      none of the variables; the steps of the prompt leave it out, and the
      text of a frame is given on its own ([getPrompt] below).
    - [while (true)] in [askFileInput] becomes a loop with fuel; every round
      takes events from the input, so fuel beyond the number of events is
      never used up ([menu_loop_fuel]). *)

From Stdlib Require Import ZArith List String Ascii Bool Lia Permutation.
From stdpp Require Import base gmap strings.
Import ListNotations.

Local Open Scope string_scope.
Local Open Scope Z_scope.

(** ** JavaScript strings *)

Module JS.

(** [c.toLowerCase()] on one ASCII character. *)
Definition lower_ascii (c : ascii) : ascii :=
  let n := nat_of_ascii c in
  if ((65 <=? n) && (n <=? 90))%nat then ascii_of_nat (n + 32) else c.

(** [s.toLowerCase()]. *)
Fixpoint toLowerCase (s : string) : string :=
  match s with
  | EmptyString => EmptyString
  | String c s' => String (lower_ascii c) (toLowerCase s')
  end.

(** [s.startsWith(p)]. *)
Fixpoint startsWith (s p : string) : bool :=
  match p, s with
  | EmptyString, _ => true
  | String _ _, EmptyString => false
  | String b p', String a s' => Ascii.eqb a b && startsWith s' p'
  end.

(** [s.includes(p)]: [p] is a prefix of some suffix of [s]. *)
Fixpoint includes (s p : string) : bool :=
  startsWith s p ||
  match s with
  | EmptyString => false
  | String _ s' => includes s' p
  end.

(** [s.split(sep)] for a separator of one character; the result is never
    empty. *)
Fixpoint split (sep : ascii) (s : string) : list string :=
  match s with
  | EmptyString => [EmptyString]
  | String c s' =>
      if Ascii.eqb c sep then EmptyString :: split sep s'
      else match split sep s' with
           | [] => [String c EmptyString]
           | piece :: pieces => String c piece :: pieces
           end
  end.

(** A string as a condition: only the empty string is falsy. *)
Definition truthy_string (s : string) : bool :=
  match s with EmptyString => false | String _ _ => true end.

(** The values an option can carry and a prompt can return. *)
Inductive value : Type :=
| VUndefined
| VBool (b : bool)
| VNum (n : Z)
| VStr (s : string).

(** [v === w], on the values above. *)
Definition strict_eq (v w : value) : bool :=
  match v, w with
  | VUndefined, VUndefined => true
  | VBool a, VBool b => Bool.eqb a b
  | VNum a, VNum b => Z.eqb a b
  | VStr a, VStr b => String.eqb a b
  | _, _ => false
  end.

(** [a[i]] for an integer [i]: [None] is [undefined]. *)
Definition at_index {A : Type} (a : list A) (i : Z) : option A :=
  if i <? 0 then None else nth_error a (Z.to_nat i).

(** What a call produces: a value or a thrown exception. *)
Inductive res (A : Type) : Type :=
| Ok (a : A)
| Throw.
Arguments Ok {A} a.
Arguments Throw {A}.

End JS.
Import JS.

(** ** The host's [Array.prototype.sort] *)

(** All the prompt relies on: sorting rearranges. ECMAScript leaves the
    order to the implementation when the comparator is not consistent. *)
Class ArraySort : Type := {
  sort : forall {A : Type}, (A -> A -> Z) -> list A -> list A;
  sort_Permutation :
    forall {A : Type} (comparefn : A -> A -> Z) (a : list A),
      Permutation (sort comparefn a) a
}.

(** Node's sort (V8, [third_party/v8/builtins/array-sort.tq]) is TimSort. For
    fewer than 64 elements the minimal run length is the length of the array,
    so the whole sort is one [CountAndMakeRun] followed, when the run is
    shorter than the array, by one [BinaryInsertionSort]; no runs are merged.
    That path is modelled here, on lists. *)
Module V8.
Section Sort.
Context {A : Type} (comparefn : A -> A -> Z).

(** The loop of [CountAndMakeRun]: extends the run while the order of each
    element against its predecessor agrees with that of the first pair. *)
Fixpoint run_length (isDescending : bool) (previousElement : A)
    (rest : list A) (runLength : nat) : nat :=
  match rest with
  | [] => runLength
  | currentElement :: rest' =>
      let order := comparefn currentElement previousElement in
      if (if isDescending then 0 <=? order else order <? 0)
      then runLength
      else run_length isDescending currentElement rest' (S runLength)
  end.

(** [CountAndMakeRun(0, length)]: the leading run, reversed when it is
    strictly descending, and the elements after it. *)
Definition CountAndMakeRun (workArray : list A) : list A * list A :=
  match workArray with
  | elementHigh :: elementLow :: rest =>
      let isDescending := comparefn elementLow elementHigh <? 0 in
      let runLength := run_length isDescending elementLow rest 2 in
      let run := firstn runLength workArray in
      (if isDescending then rev run else run, skipn runLength workArray)
  | _ => (workArray, [])
  end.

(** The binary search of [BinaryInsertionSort] for the place of [pivot] in
    the sorted prefix; [left] and [right] move towards each other, so the
    length of the prefix bounds the number of rounds. *)
Fixpoint search (rounds : nat) (sorted : list A) (pivot : A)
    (left right : nat) : nat :=
  match rounds with
  | O => left
  | S rounds' =>
      if (left <? right)%nat then
        let mid := (left + Nat.div2 (right - left))%nat in
        match nth_error sorted mid with
        | Some element =>
            if comparefn pivot element <? 0
            then search rounds' sorted pivot left mid
            else search rounds' sorted pivot (S mid) right
        | None => left
        end
      else left
  end.

(** One round of the outer loop: [pivot] moves to the place found. *)
Definition insert_pivot (sorted : list A) (pivot : A) : list A :=
  let left := search (S (length sorted)) sorted pivot 0 (length sorted) in
  firstn left sorted ++ pivot :: skipn left sorted.

Definition BinaryInsertionSort (run rest : list A) : list A :=
  fold_left insert_pivot rest run.

(** [ArrayTimSortImpl] on fewer than 64 elements. *)
Definition ArrayTimSortImpl (workArray : list A) : list A :=
  if (length workArray <? 2)%nat then workArray
  else let '(run, rest) := CountAndMakeRun workArray in
       BinaryInsertionSort run rest.

End Sort.
End V8.

(** ** Options *)

(** An element of the [options] argument as the caller passes it. *)
Inductive raw_option : Type :=
| RFalsy                              (* null, undefined, false, 0 *)
| RString (s : string)
| RObject (ref : nat) (name : string) (value : value).

(** The identity of an option object. *)
Inductive identity : Type :=
| Fresh (index : nat)                 (* created at line 51 for that index *)
| Ref (ref : nat).                    (* the caller's object *)

Definition identity_eqb (i j : identity) : bool :=
  match i, j with
  | Fresh a, Fresh b => Nat.eqb a b
  | Ref a, Ref b => Nat.eqb a b
  | _, _ => false
  end.

(** [@typedef answer]: an option as the prompt works with it. *)
Record answer : Type := {
  ident : identity;
  name : string;
  value_of : value
}.

(** [option => option] of line 35 as a condition. *)
Definition truthy (option : raw_option) : bool :=
  match option with
  | RFalsy => false
  | RString s => truthy_string s
  | RObject _ _ _ => true
  end.

(** The callback of line 51. A falsy element, which line 35 has removed,
    would stay as it is; it is given no name here. *)
Definition to_answer (index : nat) (option : raw_option) : answer :=
  match option with
  | RString s => {| ident := Fresh index; name := s; value_of := VStr s |}
  | RObject ref n v => {| ident := Ref ref; name := n; value_of := v |}
  | RFalsy => {| ident := Fresh index; name := ""; value_of := VUndefined |}
  end.

(** Lines 35 and 51 together. *)
Definition normalize (options : list raw_option) : list answer :=
  imap to_answer (List.filter truthy options).

(** [options.indexOf(a)]: the first index that holds the same object, or -1. *)
Fixpoint indexOf (options : list answer) (a : answer) : Z :=
  match options with
  | [] => -1
  | option :: rest =>
      if identity_eqb (ident option) (ident a) then 0
      else let i := indexOf rest a in
           if i <? 0 then -1 else i + 1
  end.

(** ** The prompt's variables *)

(** What the handlers read but never assign (lines 51-55). *)
Record closure : Type := {
  options : list answer;
  question : list string;
  questionRows : Z;
  scrollbar : bool
}.

(** What the handlers assign (lines 57-60), and the edit buffer [rl.line] of
    the readline interface; [None] is [undefined]. *)
Record state : Type := {
  selectedOptionIndex : Z;
  questionIndex : Z;
  filter : string;
  filteredOptions : list answer;
  line : option string
}.

(** ** Events *)

Inductive fs_op : Type :=
| WriteFile (path content : string)
| Unlink (path : string).

(** What arrives while a prompt waits. *)
Inductive event : Type :=
| Keypress (key : option string) (buffer : string)
    (* a key; readline, whose listener runs first, leaves [buffer] in
       [rl.line] *)
| Line (typed : string)
    (* the return key: readline completes the pending question with the
       line typed *)
| Data (chunk : string)
    (* a chunk on the input stream, as the parent process writes it *)
| External (op : fs_op).
    (* another process changes the file system *)

Definition apply_op (op : fs_op) (fs : gmap string string) : gmap string string :=
  match op with
  | WriteFile path content => <[path := content]> fs
  | Unlink path => delete path fs
  end.

(** The process around the prompt. *)
Record world : Type := {
  fs : gmap string string;
  rows : Z;                           (* process.stdout.rows of a terminal *)
  hooks : list string;                (* events [cleanup] is registered on *)
  input : list event
}.

(** Where an asynchronous function stands once the input is used up. *)
Inductive outcome (A : Type) : Type :=
| Done (a : A)
| Pending                             (* still waiting for an event *)
| Crash                               (* an exception escaped *)
| OutOfFuel.
Arguments Done {A} a.
Arguments Pending {A}.
Arguments Crash {A}.
Arguments OutOfFuel {A}.

(** What one event does to a waiting prompt. *)
Inductive reaction : Type :=
| Continue (s : state)
| Resolve (response : option answer)
| Raise.

Definition key_is (key : option string) (expected : string) : bool :=
  match key with
  | Some k => String.eqb k expected
  | None => false
  end.

Section Prompt.
Context {host : ArraySort}.

(** The comparator of lines 86-90. *)
Definition compare (options : list answer) (filter : string)
    (a b : answer) : Z :=
  if startsWith (toLowerCase (name a)) filter then -1
  else if startsWith (toLowerCase (name b)) filter then 1
  else indexOf options a - indexOf options b.

(** Lines 83-90: the options whose name contains [filter], sorted. *)
Definition matching (options : list answer) (filter : string) : list answer :=
  if negb (truthy_string filter) then options
  else sort (compare options filter)
         (List.filter
            (fun option => includes (toLowerCase (name option)) filter)
            options).

(** Lines 83-91: the options to show for [filter]. *)
Definition filterOptions (options : list answer) (filter : string)
    : list answer :=
  let filteredOptions := matching options filter in
  if (length filteredOptions =? 0)%nat then options else filteredOptions.

(** Lines 61-94. *)
Definition eventListener (c : closure) (s : state) (key : option string)
    : res state :=
  let n := Z.of_nat (length (filteredOptions s)) in
  if key_is key "return" then Ok s
  else if key_is key "up" then
    Ok {| selectedOptionIndex :=
            if selectedOptionIndex s =? 0 then n - 1
            else Z.max 0 (selectedOptionIndex s - 1);
          questionIndex := questionIndex s; filter := filter s;
          filteredOptions := filteredOptions s; line := line s |}
  else if key_is key "down" then
    Ok {| selectedOptionIndex :=
            if selectedOptionIndex s =? n - 1 then 0
            else Z.min (n - 1) (selectedOptionIndex s + 1);
          questionIndex := questionIndex s; filter := filter s;
          filteredOptions := filteredOptions s; line := line s |}
  else if scrollbar c && key_is key "pageup" then
    Ok {| selectedOptionIndex := selectedOptionIndex s;
          questionIndex := Z.max 0 (questionIndex s - 1);
          filter := filter s;
          filteredOptions := filteredOptions s; line := line s |}
  else if scrollbar c && key_is key "pagedown" then
    Ok {| selectedOptionIndex := selectedOptionIndex s;
          questionIndex :=
            Z.min (Z.of_nat (length (question c)) - questionRows c)
                  (questionIndex s + 1);
          filter := filter s;
          filteredOptions := filteredOptions s; line := line s |}
  else
    match (if key_is key "escape" then Some "" else line s) with
    | None => Throw                 (* undefined.toLowerCase() *)
    | Some buffer =>
        let filter := toLowerCase buffer in
        Ok {| selectedOptionIndex := 0;
              questionIndex := questionIndex s;
              filter := filter;
              filteredOptions := filterOptions (options c) filter;
              line := Some buffer |}
    end.

(** Lines 121-136: a chunk from the parent process. *)
Definition on_data (c : closure) (s : state) (data : string) : reaction :=
  if negb (startsWith data "►:") then Continue s
  else
    match tl (split ":" data) with
    | command :: args =>
        if String.eqb command "keypress" then
          match eventListener c s (hd_error args) with
          | Ok s' => Continue s'
          | Throw => Raise
          end
        else if String.eqb command "set_line" then
          Continue {| selectedOptionIndex := selectedOptionIndex s;
                      questionIndex := questionIndex s;
                      filter := filter s;
                      filteredOptions := filteredOptions s;
                      line := hd_error args |}
        else if String.eqb command "submit" then
          Resolve (at_index (filteredOptions s) (selectedOptionIndex s))
        else Continue s
    | [] => Continue s
    end.

(** One event against the listeners of lines 97, 113 and 121. *)
Definition on_event (c : closure) (s : state) (ev : event) : reaction :=
  match ev with
  | Keypress key buffer =>
      match eventListener c
              {| selectedOptionIndex := selectedOptionIndex s;
                 questionIndex := questionIndex s;
                 filter := filter s;
                 filteredOptions := filteredOptions s;
                 line := Some buffer |} key with
      | Ok s' => Continue s'
      | Throw => Raise
      end
  | Line _ =>
      Resolve (at_index (filteredOptions s) (selectedOptionIndex s))
  | Data data => on_data c s data
  | External _ => Continue s
  end.

(** The promise of line 99: events are taken in the order of arrival until
    one resolves it. *)
Fixpoint await_response (c : closure) (s : state)
    (fs : gmap string string) (events : list event)
    : outcome (option answer * gmap string string * list event) :=
  match events with
  | [] => Pending
  | External op :: rest => await_response c s (apply_op op fs) rest
  | ev :: rest =>
      match on_event c s ev with
      | Continue s' => await_response c s' fs rest
      | Resolve response => Done (response, fs, rest)
      | Raise => Crash
      end
  end.

(** The loop of lines 40-46: one question per round, left on the first
    answer that is not empty. *)
Fixpoint await_answer (fs : gmap string string) (events : list event)
    : outcome (string * gmap string string * list event) :=
  match events with
  | [] => Pending
  | Line answer :: rest =>
      if truthy_string answer then Done (answer, fs, rest)
      else await_answer fs rest
  | External op :: rest => await_answer (apply_op op fs) rest
  | _ :: rest => await_answer fs rest
  end.

(** Lines 51-55. *)
Definition make_closure (rows : Z) (question : string)
    (options : list answer) : closure :=
  let question := split "010" question in
  let questionRows :=
    Z.max 3 (rows - Z.min 12 (Z.of_nat (length options) + 4)) in
  {| options := options;
     question := question;
     questionRows := questionRows;
     scrollbar := questionRows <? Z.of_nat (length question) |}.

(** Lines 57-60, with the empty edit buffer of a new interface. *)
Definition initial_state (options : list answer) : state :=
  {| selectedOptionIndex := 0;
     questionIndex := 0;
     filter := "";
     filteredOptions := options;
     line := Some "" |}.

Definition with_input (w : world) (fs : gmap string string)
    (events : list event) : world :=
  {| fs := fs; rows := rows w; hooks := hooks w; input := events |}.

(** [askQuestion(question, options)], lines 34-140. *)
Definition askQuestion (question : string) (options : list raw_option)
    (w : world) : outcome (value * world) :=
  let options := List.filter truthy options in
  if (length options =? 0)%nat then
    match await_answer (fs w) (input w) with
    | Done (answer, fs', rest) => Done (VStr answer, with_input w fs' rest)
    | Pending => Pending
    | Crash => Crash
    | OutOfFuel => OutOfFuel
    end
  else
    let options := imap to_answer options in
    match await_response (make_closure (rows w) question options)
            (initial_state options) (fs w) (input w) with
    | Done (Some response, fs', rest) =>
        Done (value_of response, with_input w fs' rest)
    | Done (None, _, _) => Crash    (* undefined.value *)
    | Pending => Pending
    | Crash => Crash
    | OutOfFuel => OutOfFuel
    end.

End Prompt.

(** ** The file system and the process *)

Definition existsSync (file : string) (fs : gmap string string) : bool :=
  match fs !! file with Some _ => true | None => false end.

(** [fs.unlinkSync(file)] throws when there is no such file. *)
Definition unlinkSync (file : string) (fs : gmap string string)
    : res (gmap string string) :=
  match fs !! file with
  | Some _ => Ok (delete file fs)
  | None => Throw
  end.

Definition writeFile (file content : string) (fs : gmap string string)
    : gmap string string :=
  <[file := content]> fs.

(** [fs.promises.readFile(file)] rejects when there is no such file. *)
Definition readFile (file : string) (fs : gmap string string) : res string :=
  match fs !! file with
  | Some content => Ok content
  | None => Throw
  end.

(** [process.on(event, cleanup)]. *)
Definition process_on (event : string) (w : world) : world :=
  {| fs := fs w; rows := rows w; hooks := hooks w ++ [event];
     input := input w |}.

Fixpoint remove_first (event : string) (hooks : list string) : list string :=
  match hooks with
  | [] => []
  | h :: rest =>
      if String.eqb h event then rest else h :: remove_first event rest
  end.

(** [process.off(event, cleanup)]. *)
Definition process_off (event : string) (w : world) : world :=
  {| fs := fs w; rows := rows w; hooks := remove_first event (hooks w);
     input := input w |}.

Definition with_fs (w : world) (fs : gmap string string) : world :=
  {| fs := fs; rows := rows w; hooks := hooks w; input := input w |}.

(** Lines 153-159. *)
Definition cleanup (file : string) (w : world) : res world :=
  match (if existsSync file (fs w)
         then unlinkSync file (fs w) else Ok (fs w)) with
  | Throw => Throw
  | Ok fs' =>
      Ok (process_off "SIGTERM" (process_off "SIGQUIT"
           (process_off "SIGINT" (process_off "beforeExit"
             (with_fs w fs')))))
  end.

(** [cmd.execSync(`code ${file}`)]: starts the editor, which is taken to be
    installed. What the editor writes reaches the file system as [External]
    events of the input. *)
Definition execSync (command : string) (w : world) : world := w.

(** The options of lines 168-172. *)
Definition menu (file : string) : list raw_option :=
  [ RObject 0 ("Edit template with `code " ++ file ++ "`") (VStr "openEditor");
    RObject 1 "Continue" (VStr "continue");
    RObject 2 "Abort" (VStr "abort") ].

Definition unmodified_question : string :=
  "You did not modify the template. Are you sure you want to continue?".

(** How a round of the loop of lines 167-205 ends: at a [break] with the
    [result], or at the end of the body, with the world as the round leaves
    it. *)
Inductive round : Type :=
| Break (result : value) (w : world)
| Again (w : world).

Section FileInput.
Context {host : ArraySort}.

(** [cleanup()] followed by [break] with [result]. *)
Definition leave (file : string) (result : value) (w : world)
    : outcome round :=
  match cleanup file w with
  | Ok w' => Done (Break result w')
  | Throw => Crash
  end.

(** The body of the loop, lines 168-204. *)
Definition menu_round (question file content : string) (w : world)
    : outcome round :=
  match askQuestion question (menu file) w with
  | Done (task, w) =>
      let w := if strict_eq task (VStr "openEditor")
               then execSync ("code " ++ file) w else w in
      if strict_eq task (VStr "continue") then
        match (if negb (existsSync file (fs w))
               then Ok (content, with_fs w (writeFile file content (fs w)))
               else match readFile file (fs w) with
                    | Ok result => Ok (result, w)
                    | Throw => Throw
                    end) with
        | Throw => Crash
        | Ok (result, w) =>
            if String.eqb result content then
              match askQuestion unmodified_question
                      [RString "Yes"; RString "No"] w with
              | Done (yesno, w) =>
                  if strict_eq yesno (VStr "Yes")
                  then leave file (VStr result) w
                  else Done (Again w)
              | Pending => Pending
              | Crash => Crash
              | OutOfFuel => OutOfFuel
              end
            else leave file (VStr result) w
        end
      else if strict_eq task (VStr "abort") then
        leave file (VBool false) w
      else Done (Again w)
  | Pending => Pending
  | Crash => Crash
  | OutOfFuel => OutOfFuel
  end.

(** The loop of lines 167-205 and the [return] of line 207; every round
    takes at least one event from the input, [fuel] bounds the rounds. *)
Fixpoint menu_loop (fuel : nat) (question file content : string)
    (w : world) : outcome (value * world) :=
  match fuel with
  | O => OutOfFuel
  | S fuel' =>
      match menu_round question file content w with
      | Done (Break result w) => Done (result, w)
      | Done (Again w) => menu_loop fuel' question file content w
      | Pending => Pending
      | Crash => Crash
      | OutOfFuel => OutOfFuel
      end
  end.

(** [askFileInput(question, file, content)], lines 149-208. *)
Definition askFileInput (fuel : nat) (question file content : string)
    (w : world) : outcome (value * world) :=
  let w := with_fs w (writeFile file content (fs w)) in
  let w := process_on "SIGTERM" (process_on "SIGQUIT"
             (process_on "SIGINT" (process_on "beforeExit" w))) in
  menu_loop fuel question file content w.

End FileInput.

(** Node's sort as a host sort (proved a permutation below). *)
Definition v8_sort {A : Type} (comparefn : A -> A -> Z) (a : list A) : list A :=
  V8.ArrayTimSortImpl comparefn a.

(** ** Vocabulary of the statements *)

(** [s] with another selection. *)
Definition select (s : state) (index : Z) : state :=
  {| selectedOptionIndex := index;
     questionIndex := questionIndex s;
     filter := filter s;
     filteredOptions := filteredOptions s;
     line := line s |}.

(** [s] with another edit buffer. *)
Definition with_line (s : state) (buffer : option string) : state :=
  {| selectedOptionIndex := selectedOptionIndex s;
     questionIndex := questionIndex s;
     filter := filter s;
     filteredOptions := filteredOptions s;
     line := buffer |}.

(** The keys that reach the last branch of [eventListener] (line 80). *)
Definition filter_edit (c : closure) (key : option string) : bool :=
  negb (key_is key "return" || key_is key "up" || key_is key "down"
        || scrollbar c && key_is key "pageup"
        || scrollbar c && key_is key "pagedown").

(** The selection is an index of the options shown. *)
Definition selection_valid (s : state) : Prop :=
  0 <= selectedOptionIndex s < Z.of_nat (length (filteredOptions s)).

Definition no_colon (s : string) : Prop := includes s ":" = false.

(** The elements that satisfy [first] in reverse, then the others in order. *)
Definition ranked {A : Type} (first : A -> bool) (l : list A) : list A :=
  rev (List.filter first l) ++ List.filter (fun x => negb (first x)) l.

(** An element that is not of the [first] kind does not ask to go before
    [front]. *)
Definition keeps_place {A : Type} (comparefn : A -> A -> Z) (first : A -> bool)
    (front a : A) : Prop :=
  first a = false -> 0 <= comparefn a front.

(** [option] is shown for [filter] (line 85); its name starts with [filter]
    (lines 87-88). *)
Definition matches (filter : string) (option : answer) : bool :=
  includes (toLowerCase (name option)) filter.

Definition prefixed (filter : string) (option : answer) : bool :=
  startsWith (toLowerCase (name option)) filter.

Definition down_submit : list event :=
  [Data "►:keypress:down"; Data "►:submit"].

(** [w] once [cleanup] has run. *)
Definition removed (file : string) (w : world) : world :=
  process_off "SIGTERM" (process_off "SIGQUIT"
    (process_off "SIGINT" (process_off "beforeExit"
      (with_fs w (delete file (fs w)))))).

(** [w] once lines 150-164 have run. *)
Definition started (file content : string) (w : world) : world :=
  process_on "SIGTERM" (process_on "SIGQUIT"
    (process_on "SIGINT" (process_on "beforeExit"
      (with_fs w (writeFile file content (fs w)))))).

(** An event that leaves [file] alone: no other process writes or removes
    it. *)
Definition leaves_file (file : string) (ev : event) : Prop :=
  match ev with
  | External (WriteFile path _) | External (Unlink path) => path <> file
  | _ => True
  end.

Definition tty (events : list event) : world :=
  {| fs := ∅; rows := 24; hooks := []; input := events |}.

Definition yes_no : list answer := normalize [RString "Yes"; RString "No"].

Section Vocabulary.
Context {host : ArraySort}.

(** The same key [times] times in a row. *)
Fixpoint press (c : closure) (key : option string) (times : nat)
    (s : state) : res state :=
  match times with
  | O => Ok s
  | S times' =>
      match eventListener c s key with
      | Ok s' => press c key times' s'
      | Throw => Throw
      end
  end.

(** The prompt after [events], none of which ended it. *)
Fixpoint replay (c : closure) (s : state) (fs : gmap string string)
    (events : list event) : option (state * gmap string string) :=
  match events with
  | [] => Some (s, fs)
  | External op :: rest => replay c s (apply_op op fs) rest
  | ev :: rest =>
      match on_event c s ev with
      | Continue s' => replay c s' fs rest
      | _ => None
      end
  end.

End Vocabulary.

(** * The frame, the callers and the hook *)

(** ** The frame of the prompt (lines 100-110) *)

(** [a.slice(start, end)]: negative indices count from the end. *)
Definition slice {A : Type} (a : list A) (start final : Z) : list A :=
  let len := Z.of_nat (length a) in
  let k := if start <? 0 then Z.max (len + start) 0 else Z.min start len in
  let final := if final <? 0 then Z.max (len + final) 0 else Z.min final len in
  firstn (Z.to_nat (Z.max (final - k) 0)) (skipn (Z.to_nat k) a).

(** [a.join(sep)]. *)
Fixpoint join (sep : string) (a : list string) : string :=
  match a with
  | [] => ""
  | [piece] => piece
  | piece :: rest => piece ++ sep ++ join sep rest
  end.

(** [s.repeat(count)]. *)
Fixpoint repeat_string (s : string) (count : nat) : string :=
  match count with
  | O => ""
  | S count' => s ++ repeat_string s count'
  end.

Definition newline : string := String "010" "".

Definition quote : string := String "034" "".

(** ['\u001B[2J\u001B[0;0f']. *)
Definition clear : string :=
  String "027" (String "[" (String "2" (String "J"
    (String "027" (String "[" (String "0" (String ";" (String "0"
      (String "f" ""))))))))).

(** Line 105. *)
Definition styledOptions (s : state) : list string :=
  imap (fun index option =>
          (if Z.of_nat index =? selectedOptionIndex s then "► " else "  ")
          ++ name option)
       (filteredOptions s).

(** Line 106. *)
Definition visibleIndex (s : state) : Z :=
  if 3 <? selectedOptionIndex s then selectedOptionIndex s - 4 else 0.

(** The rows of line 107, before they are joined. *)
Definition optionRows (s : state) : list string :=
  slice (styledOptions s) (visibleIndex s) (visibleIndex s + 8).

(** The rows of line 104, before they are joined. *)
Definition questionLines (c : closure) (s : state) : list string :=
  slice (question c) (questionIndex s) (questionIndex s + questionRows c).

(** Line 102; [columns] is [process.stdout.columns], the width of a
    terminal. *)
Definition scrollHint (columns : Z) (c : closure) : string :=
  if scrollbar c then
    newline ++ repeat_string "-" (Z.to_nat (columns / 2)) ++ newline
    ++ match at_index (question c) (Z.of_nat (length (question c)) - 1) with
       | Some last => last
       | None => "undefined"
       end
    ++ " [Use [▲] and [▼] to see more]"
  else "".

(** Line 103. *)
Definition filterHint (s : state) : string :=
  if truthy_string (filter s)
  then " [Searching for: " ++ quote ++ filter s ++ quote ++ "]"
  else " [Start typing to filter...]".

(** [getPrompt()], lines 100-109. *)
Definition getPrompt (columns : Z) (c : closure) (s : state) : string :=
  clear ++ join newline (questionLines c s) ++ scrollHint columns c
  ++ filterHint s ++ newline ++ join newline (optionRows s) ++ newline.

(** The line breaks of a text. *)
Fixpoint newlines (s : string) : nat :=
  match s with
  | EmptyString => O
  | String c s' => (if Ascii.eqb c "010" then 1 else 0) + newlines s'
  end.

(** The scroll offset leaves no row of the question window empty. *)
Definition scroll_in_range (c : closure) (s : state) : Prop :=
  0 <= questionIndex s
    <= Z.max 0 (Z.of_nat (length (question c)) - questionRows c).

(** A question of six lines. *)
Definition six_lines : string :=
  "1" ++ newline ++ "2" ++ newline ++ "3" ++ newline ++ "4" ++ newline
  ++ "5" ++ newline ++ "6".

(** [s] before its first colon. *)
Fixpoint before_colon (s : string) : string :=
  match s with
  | EmptyString => EmptyString
  | String ch s' => if Ascii.eqb ch ":" then EmptyString
                    else String ch (before_colon s')
  end.

(** An event of the keyboard or of the file system, not a chunk of the
    parent process. *)
Definition not_injected (ev : event) : Prop :=
  match ev with
  | Data _ => False
  | _ => True
  end.

(** The options shown are those of the filter. *)
Definition shows_filter {host : ArraySort} (c : closure) (s : state) : Prop :=
  filteredOptions s = filterOptions (options c) (filter s).

(** The value an option stands for: the string itself, or the [value] of
    the object. *)
Definition raw_value (option : raw_option) : value :=
  match option with
  | RFalsy => VUndefined
  | RString s => VStr s
  | RObject _ _ v => v
  end.

(** ** The pre-commit hook ([hooks/pre-commit.mjs]) and the commit *)

(** What a function of the tool produces: a value, a thrown [Error] with its
    message, or a [TypeError] of the engine. *)
Inductive result (A : Type) : Type :=
| Returned (a : A)
| ErrorThrown (message : string)
| TypeErrorThrown.
Arguments Returned {A} a.
Arguments ErrorThrown {A} message.
Arguments TypeErrorThrown {A}.

(** [\d] *)
Definition is_digit (ch : ascii) : bool :=
  let n := nat_of_ascii ch in ((48 <=? n) && (n <=? 57))%nat.

Fixpoint all_digits (s : string) : bool :=
  match s with
  | EmptyString => true
  | String ch s' => is_digit ch && all_digits s'
  end.

(** [s.match(/^\d+$/)] as a condition. *)
Definition only_digits (s : string) : bool :=
  truthy_string s && all_digits s.

(** [s.match(/\d+$/)?.[0]]: the digits [s] ends with, if any. *)
Fixpoint trailing_digits (s : string) : option string :=
  match s with
  | EmptyString => None
  | String ch s' =>
      match trailing_digits s' with
      | Some digits =>
          if is_digit ch && String.eqb digits s'
          then Some (String ch digits) else Some digits
      | None =>
          if is_digit ch && negb (truthy_string s')
          then Some (String ch EmptyString) else None
      end
  end.

(** [a.pop()]: the last element, [None] for [undefined], and what is left
    of [a]. *)
Fixpoint pop {A : Type} (a : list A) : option A * list A :=
  match a with
  | [] => (None, [])
  | [x] => (Some x, [])
  | x :: rest => let '(last, rest') := pop rest in (last, x :: rest')
  end.

Definition changeLevels : list string := ["major"; "minor"; "patch"].

(** [preCommitHook()], lines 15-42 of the hook; [gitUsername] and
    [branchName] are what [git.getUsername()] and [git.getCurrentBranch()]
    resolve to. *)
Definition preCommitHook (gitUsername branchName : string) : result unit :=
  let branchParts := split "-" branchName in
  if (length branchParts <? 3)%nat then
    ErrorThrown ("The branch name " ++ quote ++ branchName ++ quote
                 ++ " should consist of three parts, seperated by a dash: "
                 ++ gitUsername ++ "-major|minor|patch-issueNumber")
  else
    let '(issueNumber, branchParts) := pop branchParts in
    let '(changeLevel, branchParts) := pop branchParts in
    let username := join "-" branchParts in
    match issueNumber with
    | None => TypeErrorThrown         (* undefined.match *)
    | Some issueNumber =>
        if negb (String.eqb issueNumber "release")
           && negb (only_digits issueNumber)
        then ErrorThrown ("The issue number should consist of only numbers: "
                          ++ issueNumber)
        else if negb (match changeLevel with
                      | Some level => existsb (String.eqb level) changeLevels
                      | None => false
                      end)
        then ErrorThrown
               ("The change level should be one of the following: "
                ++ "major, minor, patch: "
                ++ match changeLevel with
                   | Some level => level
                   | None => "undefined"
                   end)
        else if negb (String.eqb (toLowerCase username)
                                 (toLowerCase gitUsername))
        then ErrorThrown
               ("The git username " ++ quote ++ gitUsername ++ quote
                ++ " should be equal to the username provided in the "
                ++ "branch name: " ++ username)
        else Returned tt
    end.

(** Lines 47-56 of [commitAndPushChanges]: the hook runs, then the message
    of the commit is made from the digits the branch name ends with. The
    question about installing the hook before and the shell commands after
    are left out. *)
Definition commitMessage (gitUsername branchName : string) : result string :=
  match preCommitHook gitUsername branchName with
  | Returned _ =>
      match trailing_digits branchName with
      | Some issueNumber => Returned ("Closes #" ++ issueNumber)
      | None =>
          ErrorThrown
            ("Could not get the issue number from the branch name: "
             ++ branchName)
      end
  | ErrorThrown message => ErrorThrown message
  | TypeErrorThrown => TypeErrorThrown
  end.

(** [`${username}-${changelevel}-${issue}`], the name the tool gives a
    branch. *)
Definition branch_name (username changelevel issue : string) : string :=
  username ++ "-" ++ changelevel ++ "-" ++ issue.

(** [s] holds no [sep]. *)
Fixpoint free_of (sep : ascii) (s : string) : bool :=
  match s with
  | EmptyString => true
  | String ch s' => negb (Ascii.eqb ch sep) && free_of sep s'
  end.

(** ** The menu of tasks ([src/select.mjs]) *)

Module Select.

(** An entry of [Object.entries(tasks)] with what its functions resolve to:
    [isAvailable] as a condition, [getPrompt] and [getPriority] with [None]
    where the function is missing or gives [undefined]. *)
Record task : Type := {
  taskName : string;
  isAvailable : bool;
  getPrompt : option string;
  getPriority : option Z
}.

(** An element of [options] (line 22); [entry] is the index of the task,
    which tells the objects apart. *)
Record task_option : Type := {
  entry : nat;
  option_name : string;
  option_value : string;
  priority : Z
}.

(** [x || fallback] on strings and on numbers. *)
Definition or_string (x : option string) (fallback : string) : string :=
  match x with
  | Some s => if truthy_string s then s else fallback
  | None => fallback
  end.

Definition or_number (x : option Z) (fallback : Z) : Z :=
  match x with
  | Some n => if n =? 0 then fallback else n
  | None => fallback
  end.

(** The loop of lines 17-23, from the entry of index [index] on. *)
Fixpoint task_options_from (index : nat) (taskEntries : list task)
    : list task_option :=
  match taskEntries with
  | [] => []
  | task :: rest =>
      if isAvailable task then
        {| entry := index;
           option_name := or_string (getPrompt task) (taskName task);
           option_value := taskName task;
           priority := or_number (getPriority task) 1 |}
        :: task_options_from (S index) rest
      else task_options_from (S index) rest
  end.

Definition task_options (taskEntries : list task) : list task_option :=
  task_options_from 0 taskEntries.

(** The comparator of line 27. *)
Definition by_priority (a b : task_option) : Z := priority b - priority a.

(** The object as [askQuestion] reads it. *)
Definition as_option (o : task_option) : raw_option :=
  RObject (entry o) (option_name o) (VStr (option_value o)).

(** Lines 13-27 of [select]: the name of the task that line 30 then runs.
    [Crash] stands for the error [No tasks available.]. *)
Definition select {host : ArraySort} (prompt : string)
    (taskEntries : list task) (w : world) : outcome (value * world) :=
  let options := task_options taskEntries in
  if (length options =? 0)%nat then Crash
  else askQuestion prompt (List.map as_option (sort by_priority options)) w.

(** Six entries of the registry with their prompts and priorities, as they
    answer on the default branch with the workflows installed: nothing to
    commit, no pull request to open. *)
Definition sample_registry : list task :=
  [ {| taskName := "commitAndPushChanges"; isAvailable := false;
       getPrompt := Some "Push changes"; getPriority := Some 8 |};
    {| taskName := "createRelease"; isAvailable := true;
       getPrompt := Some "Release"; getPriority := Some 4 |};
    {| taskName := "exit"; isAvailable := true;
       getPrompt := Some (String "027" ("[90mExit" ++ String "027" "[0m"));
       getPriority := Some 1 |};
    {| taskName := "openPullRequest"; isAvailable := false;
       getPrompt := Some "Open a pull request"; getPriority := Some 5 |};
    {| taskName := "showBacklog"; isAvailable := true;
       getPrompt := Some "Backlog"; getPriority := Some 10 |};
    {| taskName := "showProgress"; isAvailable := true;
       getPrompt := Some "In Progress"; getPriority := Some 7 |} ].

End Select.

(** * Properties *)

(** ** Node's sort rearranges *)

Lemma insert_pivot_Permutation {A : Type} (comparefn : A -> A -> Z)
    (sorted : list A) (pivot : A) :
  Permutation (V8.insert_pivot comparefn sorted pivot) (pivot :: sorted).
Proof.
  unfold V8.insert_pivot.
  set (left := V8.search _ _ _ _ _ _).
  rewrite <- Permutation_middle.
  now rewrite firstn_skipn.
Qed.

Lemma BinaryInsertionSort_Permutation {A : Type} (comparefn : A -> A -> Z)
    (rest run : list A) :
  Permutation (V8.BinaryInsertionSort comparefn run rest) (run ++ rest).
Proof.
  unfold V8.BinaryInsertionSort.
  revert run; induction rest as [|pivot rest IH]; intros run; simpl.
  - now rewrite app_nil_r.
  - rewrite IH, insert_pivot_Permutation.
    simpl. apply Permutation_middle.
Qed.

Lemma CountAndMakeRun_Permutation {A : Type} (comparefn : A -> A -> Z)
    (workArray : list A) :
  Permutation (fst (V8.CountAndMakeRun comparefn workArray)
                 ++ snd (V8.CountAndMakeRun comparefn workArray))
              workArray.
Proof.
  unfold V8.CountAndMakeRun.
  destruct workArray as [|x [|y rest]]; simpl fst; simpl snd;
    try (now rewrite app_nil_r).
  set (n := V8.run_length _ _ _ _ _).
  destruct (comparefn y x <? 0).
  - rewrite <- Permutation_rev. now rewrite firstn_skipn.
  - now rewrite firstn_skipn.
Qed.

Lemma v8_sort_Permutation {A : Type} (comparefn : A -> A -> Z) (a : list A) :
  Permutation (v8_sort comparefn a) a.
Proof.
  unfold v8_sort, V8.ArrayTimSortImpl.
  destruct (length a <? 2)%nat; [reflexivity|].
  pose proof (CountAndMakeRun_Permutation comparefn a) as H.
  destruct (V8.CountAndMakeRun comparefn a) as [run rest]; simpl in H.
  now rewrite BinaryInsertionSort_Permutation.
Qed.

(** The rounds given to the binary search are enough: more change nothing. *)
Lemma search_rounds {A : Type} (comparefn : A -> A -> Z) (sorted : list A)
    (pivot : A) (rounds rounds' left right : nat) :
  (right - left < rounds)%nat -> (right - left < rounds')%nat ->
  V8.search comparefn rounds sorted pivot left right =
  V8.search comparefn rounds' sorted pivot left right.
Proof.
  revert rounds' left right.
  induction rounds as [|rounds IH]; intros rounds' left right H H'; [lia|].
  destruct rounds' as [|rounds']; [lia|]. simpl.
  destruct (Nat.ltb_spec left right) as [Hlt|]; [|reflexivity].
  assert (Hmid : (left + Nat.div2 (right - left) < right)%nat).
  { assert (Hpos : (0 < right - left)%nat) by lia.
    apply Nat.lt_div2 in Hpos. revert Hpos.
    generalize (Nat.div2 (right - left)). intros half Hpos. lia. }
  revert Hmid. generalize (Nat.div2 (right - left)). intros half Hmid.
  destruct (nth_error sorted _); [|reflexivity].
  destruct (comparefn pivot a <? 0); apply IH; lia.
Qed.

#[export] Instance node : ArraySort :=
  {| sort := @v8_sort; sort_Permutation := @v8_sort_Permutation |}.

(** ** What Node's sort makes of a comparator that lets its first argument win *)

Section NodeOrder.
Context {A : Type} (comparefn : A -> A -> Z) (first : A -> bool).
Local Open Scope list_scope.

(** The comparator answers "before" for every element of the first kind
    ([first_wins]) and "not before" for any other element against those in
    front of it ([keeps_place]). *)
Hypothesis first_wins : forall a b, first a = true -> comparefn a b < 0.

#[local] Abbreviation keeps_place := (keeps_place comparefn first).

Lemma middle_below (left right : nat) :
  (left < right)%nat -> (left + Nat.div2 (right - left) < right)%nat.
Proof.
  intros Hlt. assert (H : (0 < right - left)%nat) by lia.
  apply Nat.lt_div2 in H. revert H.
  generalize (Nat.div2 (right - left)). intros d H. lia.
Qed.

Lemma search_front (rounds : nat) (sorted : list A) (pivot : A)
    (left right : nat) :
  first pivot = true -> (right <= length sorted)%nat ->
  V8.search comparefn rounds sorted pivot left right = left.
Proof.
  intros Hfirst. revert right.
  induction rounds as [|rounds IH]; intros right Hright; simpl; [reflexivity|].
  destruct (Nat.ltb_spec left right) as [Hlt|]; [|reflexivity].
  pose proof (middle_below left right Hlt) as Hmid.
  revert Hmid. generalize (Nat.div2 (right - left)). intros half Hmid.
  destruct (nth_error sorted _) as [element|] eqn:E.
  - pose proof (first_wins pivot element Hfirst) as Hcmp.
    apply Z.ltb_lt in Hcmp. rewrite Hcmp. apply IH. lia.
  - apply nth_error_None in E. lia.
Qed.

Lemma search_back (rounds : nat) (sorted : list A) (pivot : A)
    (left right : nat) :
  (forall x, In x sorted -> 0 <= comparefn pivot x) ->
  (left <= right <= length sorted)%nat -> (right - left < rounds)%nat ->
  V8.search comparefn rounds sorted pivot left right = right.
Proof.
  intros Hback. revert left.
  induction rounds as [|rounds IH]; intros left Hrange Hrounds; [lia|].
  simpl. destruct (Nat.ltb_spec left right) as [Hlt|]; [|lia].
  pose proof (middle_below left right Hlt) as Hmid.
  revert Hmid. generalize (Nat.div2 (right - left)). intros half Hmid.
  destruct (nth_error sorted _) as [element|] eqn:E.
  - pose proof (Hback element (nth_error_In _ _ E)) as Hcmp.
    apply Z.ltb_ge in Hcmp. rewrite Hcmp. apply IH; lia.
  - apply nth_error_None in E. lia.
Qed.

Lemma insert_pivot_front (sorted : list A) (pivot : A) :
  first pivot = true ->
  V8.insert_pivot comparefn sorted pivot = pivot :: sorted.
Proof.
  intros Hfirst. unfold V8.insert_pivot.
  now rewrite search_front.
Qed.

Lemma insert_pivot_back (sorted : list A) (pivot : A) :
  (forall x, In x sorted -> 0 <= comparefn pivot x) ->
  V8.insert_pivot comparefn sorted pivot = sorted ++ [pivot].
Proof.
  intros Hback. unfold V8.insert_pivot.
  rewrite search_back by (auto; lia).
  now rewrite firstn_all, skipn_all.
Qed.

Lemma ranked_snoc (l : list A) (x : A) :
  ranked first (l ++ [x]) =
  if first x then x :: ranked first l else ranked first l ++ [x].
Proof.
  unfold ranked. rewrite !List.filter_app. simpl.
  destruct (first x); simpl.
  - now rewrite rev_app_distr, app_nil_r.
  - now rewrite app_nil_r, app_assoc.
Qed.

Lemma ranked_In (l : list A) (x : A) : In x (ranked first l) -> In x l.
Proof.
  unfold ranked. rewrite in_app_iff, <- in_rev, !List.filter_In. tauto.
Qed.

Lemma ordered_before {R : A -> A -> Prop} (front back : list A) (x a : A) :
  ForallOrdPairs R (front ++ a :: back) -> In x front -> R x a.
Proof.
  induction front as [|y front IH]; simpl; [tauto|].
  intros H [-> | Hin]; inversion_clear H as [|? ? Hall Hrest].
  - rewrite List.Forall_forall in Hall. apply Hall, in_elt.
  - now apply IH.
Qed.

Lemma BinaryInsertionSort_ranked (rest seen : list A) :
  ForallOrdPairs keeps_place (seen ++ rest) ->
  V8.BinaryInsertionSort comparefn (ranked first seen) rest =
  ranked first (seen ++ rest).
Proof.
  unfold V8.BinaryInsertionSort. revert seen.
  induction rest as [|pivot rest IH]; intros seen Hord; simpl.
  - now rewrite app_nil_r.
  - replace (V8.insert_pivot comparefn (ranked first seen) pivot)
      with (ranked first (seen ++ [pivot])).
    + rewrite IH; rewrite <- app_assoc; [reflexivity|exact Hord].
    + rewrite ranked_snoc. destruct (first pivot) eqn:Hfirst.
      * now rewrite insert_pivot_front.
      * rewrite insert_pivot_back; [reflexivity|].
        intros x Hx. apply ranked_In in Hx.
        exact (ordered_before _ _ _ _ Hord Hx Hfirst).
Qed.

Lemma run_length_same_kind (rest : list A) (previous : A) (n : nat)
    (descending : bool) :
  ForallOrdPairs keeps_place (previous :: rest) ->
  exists m, V8.run_length comparefn descending previous rest n = (n + m)%nat /\
            Forall (fun x => first x = descending) (firstn m rest).
Proof.
  revert previous n.
  induction rest as [|current rest IH]; intros previous n Hord; simpl.
  - exists O. split; [lia|constructor].
  - inversion_clear Hord as [|? ? Hall Hrest].
    inversion_clear Hall as [|? ? Hcurrent _].
    assert (Hkind : (if descending then 0 <=? comparefn current previous
                     else comparefn current previous <? 0) = false ->
                    first current = descending).
    { destruct descending; intros Hcmp.
      - apply Z.leb_gt in Hcmp.
        destruct (first current) eqn:E; [reflexivity|].
        specialize (Hcurrent E). lia.
      - apply Z.ltb_ge in Hcmp.
        destruct (first current) eqn:E; [|reflexivity].
        pose proof (first_wins current previous E). lia. }
    destruct (if descending then _ else _).
    + exists O. split; [lia|constructor].
    + destruct (IH current (S n) Hrest) as [m [Hm Hall]].
      exists (S m). split; [lia|]. simpl. constructor; auto.
Qed.

Lemma filter_all (p : A -> bool) (l : list A) :
  Forall (fun x => p x = true) l -> List.filter p l = l.
Proof.
  induction 1 as [|x l Hx _ IH]; simpl; [reflexivity|].
  now rewrite Hx, IH.
Qed.

Lemma filter_none (p : A -> bool) (l : list A) :
  Forall (fun x => p x = false) l -> List.filter p l = [].
Proof.
  induction 1 as [|x l Hx _ IH]; simpl; [reflexivity|].
  now rewrite Hx, IH.
Qed.

Lemma ranked_run (descending : bool) (x : A) (tail : list A) :
  Forall (fun y => first y = descending) tail ->
  (if descending then rev (x :: tail) else x :: tail) =
  ranked first (x :: tail).
Proof.
  intros Hall. unfold ranked. simpl.
  destruct descending.
  - rewrite (filter_all first tail Hall).
    rewrite (filter_none (fun y => negb (first y)) tail)
      by (eapply List.Forall_impl; [|exact Hall]; simpl; now intros y ->).
    destruct (first x); simpl; now rewrite ?app_nil_r.
  - rewrite (filter_none first tail Hall).
    rewrite (filter_all (fun y => negb (first y)) tail)
      by (eapply List.Forall_impl; [|exact Hall]; simpl; now intros y ->).
    destruct (first x); reflexivity.
Qed.

(** On an array where no element of the other kind asks to go before one in
    front of it, Node's sort moves the elements of the first kind to the front
    in reverse order and leaves the others in place. *)
Lemma ArrayTimSortImpl_ranked (workArray : list A) :
  ForallOrdPairs keeps_place workArray ->
  V8.ArrayTimSortImpl comparefn workArray = ranked first workArray.
Proof.
  intros Hord. unfold V8.ArrayTimSortImpl.
  destruct workArray as [|x [|y rest]].
  - reflexivity.
  - unfold ranked. simpl. now destruct (first x).
  - cbn [length Nat.ltb Nat.leb V8.CountAndMakeRun].
    set (descending := comparefn y x <? 0).
    inversion Hord as [|? ? Hall Htail]; subst.
    destruct (run_length_same_kind rest y 2 descending Htail)
      as [m [Hm Hsame]].
    rewrite Hm. cbn [Nat.add firstn skipn].
    assert (Hy : first y = descending).
    { inversion_clear Hall as [|? ? Hy _]. unfold descending.
      destruct (Z.ltb_spec (comparefn y x) 0) as [Hlt|Hge].
      - destruct (first y) eqn:E; [reflexivity|]. specialize (Hy E). lia.
      - destruct (first y) eqn:E; [|reflexivity].
        pose proof (first_wins y x E). lia. }
    rewrite (ranked_run descending x (y :: firstn m rest))
      by (constructor; assumption).
    change (x :: y :: firstn m rest) with (firstn (S (S m)) (x :: y :: rest)).
    change (skipn m rest) with (skipn (S (S m)) (x :: y :: rest)).
    rewrite BinaryInsertionSort_ranked; now rewrite firstn_skipn.
Qed.

End NodeOrder.


(** ** Strings *)

Lemma startsWith_nil (s : string) : startsWith s "" = true.
Proof. now destruct s. Qed.

Lemma includes_nil (s : string) : includes s "" = true.
Proof. destruct s; simpl; now rewrite ?startsWith_nil. Qed.

Lemma append_String (a : ascii) (s t : string) :
  String a s ++ t = String a (s ++ t).
Proof. reflexivity. Qed.

Lemma append_EmptyString (t : string) : "" ++ t = t.
Proof. reflexivity. Qed.

Lemma split_no_colon (s : string) : no_colon s -> split ":" s = [s].
Proof.
  unfold no_colon.
  induction s as [|c s IH]; simpl; [reflexivity|].
  rewrite startsWith_nil, andb_true_r.
  intros H. apply orb_false_elim in H as [Hc Hs].
  rewrite Hc, (IH Hs). reflexivity.
Qed.

(** ** Options shown *)

Section FilterFacts.
Context {host : ArraySort}.

Lemma sort_nil {A : Type} (comparefn : A -> A -> Z) : sort comparefn [] = [].
Proof. apply Permutation_nil. symmetry. apply sort_Permutation. Qed.

Lemma filterOptions_empty_filter (options : list answer) :
  filterOptions options "" = options.
Proof.
  unfold filterOptions, matching; simpl. now destruct options.
Qed.

Lemma filterOptions_not_nil (options : list answer) (f : string) :
  options <> [] -> filterOptions options f <> [].
Proof.
  intros Hne. unfold filterOptions.
  destruct (matching options f); simpl; [assumption|discriminate].
Qed.

Lemma filterOptions_no_match (options : list answer) (f : string) :
  (forall o, In o options -> includes (toLowerCase (name o)) f = false) ->
  filterOptions options f = options.
Proof.
  intros Hno. unfold filterOptions, matching.
  destruct (truthy_string f); simpl.
  - replace (List.filter _ options) with (@nil answer).
    + now rewrite sort_nil.
    + symmetry. induction options as [|o rest IH]; simpl; [reflexivity|].
      rewrite (Hno o (or_introl eq_refl)). apply IH.
      intros o' Ho'. apply Hno. now right.
  - now destruct options.
Qed.

(** Whatever the order the host gives them, the options that lines 83-90
    keep for a filter that is not empty are those whose name contains it. *)
Lemma matching_In (options : list answer) (f : string) (o : answer) :
  f <> "" ->
  In o (matching options f) <-> In o options /\ matches f o = true.
Proof.
  intros Hf. unfold matching.
  destruct f as [|a f']; [congruence|]. simpl negb. cbv iota.
  rewrite <- (List.filter_In (matches (String a f')) o options).
  split; apply Permutation_in;
    [|symmetry]; apply sort_Permutation.
Qed.

(** They are all shown as soon as there is one. *)
Lemma filterOptions_matching (options : list answer) (f : string) (m : answer) :
  f <> "" -> In m options -> matches f m = true ->
  filterOptions options f = matching options f.
Proof.
  intros Hf Hm Hmatch. unfold filterOptions.
  pose proof (proj2 (matching_In options f m Hf) (conj Hm Hmatch)) as Hin.
  destruct (matching options f); [contradiction|reflexivity].
Qed.

End FilterFacts.

(** ** The options Node shows *)

Lemma identity_eqb_eq (i j : identity) : identity_eqb i j = true <-> i = j.
Proof.
  destruct i, j; simpl; rewrite ?Nat.eqb_eq; split;
    congruence || discriminate.
Qed.

Lemma indexOf_found (front back : list answer) (a : answer) :
  ~ In (ident a) (List.map ident front) ->
  indexOf (front ++ a :: back) a = Z.of_nat (length front).
Proof.
  induction front as [|x front IH]; intros Hnew.
  - simpl. now rewrite (proj2 (identity_eqb_eq _ _) eq_refl).
  - cbn [app indexOf].
    destruct (identity_eqb (ident x) (ident a)) eqn:E.
    + apply identity_eqb_eq in E. exfalso. apply Hnew. now left.
    + rewrite IH by (intros H; apply Hnew; now right).
      destruct (Z.ltb_spec (Z.of_nat (length front)) 0); simpl length; lia.
Qed.

(** Distinct objects stand in the order of their indices. *)
Lemma indexOf_ordered (options : list answer) :
  List.NoDup (List.map ident options) ->
  ForallOrdPairs (fun front a => indexOf options front <= indexOf options a)
    options.
Proof.
  intros Hnodup.
  assert (H : forall l front, options = (front ++ l)%list ->
            ForallOrdPairs
              (fun front a => indexOf options front <= indexOf options a) l).
  { induction l as [|b l IH]; intros front Hsplit; constructor.
    - apply List.Forall_forall. intros a Ha.
      destruct (in_split _ _ Ha) as [l1 [l2 ->]].
      assert (Hb : indexOf options b = Z.of_nat (length front)).
      { rewrite Hsplit. apply indexOf_found.
        rewrite Hsplit, map_app in Hnodup. simpl in Hnodup.
        apply NoDup_remove_2 in Hnodup. rewrite in_app_iff in Hnodup. tauto. }
      assert (Ha' : indexOf options a
                    = Z.of_nat (length (front ++ b :: l1)%list)).
      { rewrite Hsplit.
        replace (front ++ b :: l1 ++ a :: l2)%list
          with ((front ++ b :: l1) ++ a :: l2)%list
          by (now rewrite <- app_assoc).
        apply indexOf_found.
        rewrite Hsplit in Hnodup.
        replace (front ++ b :: l1 ++ a :: l2)%list
          with ((front ++ b :: l1) ++ a :: l2)%list in Hnodup
          by (now rewrite <- app_assoc).
        rewrite map_app in Hnodup. simpl in Hnodup.
        apply NoDup_remove_2 in Hnodup. rewrite in_app_iff in Hnodup. tauto. }
      rewrite Hb, Ha', length_app. lia.
    - apply (IH (front ++ [b])%list). now rewrite <- app_assoc. }
  exact (H options [] eq_refl).
Qed.

Lemma ForallOrdPairs_filter {A : Type} (R : A -> A -> Prop) (p : A -> bool)
    (l : list A) :
  ForallOrdPairs R l -> ForallOrdPairs R (List.filter p l).
Proof.
  induction 1 as [|a l Hall _ IH]; simpl; [constructor|].
  destruct (p a); [|exact IH].
  constructor; [|exact IH].
  rewrite List.Forall_forall in *. intros x Hx.
  apply List.filter_In in Hx. now apply Hall.
Qed.

Lemma ForallOrdPairs_impl {A : Type} (R R' : A -> A -> Prop) (l : list A) :
  (forall a b, R a b -> R' a b) ->
  ForallOrdPairs R l -> ForallOrdPairs R' l.
Proof.
  intros Himpl. induction 1 as [|a l Hall _ IH]; constructor; [|exact IH].
  eapply List.Forall_impl; [|exact Hall]. apply Himpl.
Qed.

(** For options that are distinct objects and a filter that is not empty,
    Node shows the matches whose names start with the filter in the reverse
    of their original order, and after them the other matches in their
    original order. *)
Lemma node_filterOptions (options : list answer) (f : string) :
  List.NoDup (List.map ident options) -> f <> "" ->
  filterOptions (host := node) options f =
  match List.filter (matches f) options with
  | [] => options
  | shown => ranked (prefixed f) shown
  end.
Proof.
  intros Hnodup Hf. unfold filterOptions, matching.
  destruct f as [|c f]; [congruence|]. cbn [truthy_string negb].
  change (List.filter _ options) with (List.filter (matches (String c f)) options).
  assert (Hsort : @sort node _ (compare options (String c f))
                    (List.filter (matches (String c f)) options)
                  = ranked (prefixed (String c f))
                      (List.filter (matches (String c f)) options)).
  { apply ArrayTimSortImpl_ranked.
    - intros a b Ha. unfold compare. fold (prefixed (String c f) a).
      rewrite Ha. lia.
    - apply ForallOrdPairs_filter.
      eapply ForallOrdPairs_impl; [|apply indexOf_ordered; exact Hnodup].
      intros front a Hle Ha. cbv beta in Hle. unfold compare.
      fold (prefixed (String c f) a). rewrite Ha.
      destruct (startsWith _ _); lia. }
  rewrite Hsort.
  destruct (List.filter (matches (String c f)) options) as [|x shown]; [reflexivity|].
  assert (Hlen : length (ranked (prefixed (String c f)) (x :: shown))
                 = length (x :: shown)).
  { apply Permutation_length. rewrite <- Hsort. apply sort_Permutation. }
  destruct (ranked _ (x :: shown)); [discriminate|reflexivity].
Qed.

(** ** Navigation *)

Section Navigation.
Context {host : ArraySort}.

Lemma select_same (s : state) : select s (selectedOptionIndex s) = s.
Proof. now destruct s. Qed.

Lemma select_select (s : state) (i j : Z) : select (select s i) j = select s j.
Proof. reflexivity. Qed.

Lemma eventListener_down (c : closure) (s : state) :
  let n := Z.of_nat (length (filteredOptions s)) in
  eventListener c s (Some "down") =
  Ok (select s (if selectedOptionIndex s =? n - 1 then 0
                else Z.min (n - 1) (selectedOptionIndex s + 1))).
Proof. reflexivity. Qed.

Lemma eventListener_up (c : closure) (s : state) :
  let n := Z.of_nat (length (filteredOptions s)) in
  eventListener c s (Some "up") =
  Ok (select s (if selectedOptionIndex s =? 0 then n - 1
                else Z.max 0 (selectedOptionIndex s - 1))).
Proof. reflexivity. Qed.

Lemma press_down (c : closure) (times : nat) (s : state) :
  selection_valid s ->
  press c (Some "down") times s =
  Ok (select s ((selectedOptionIndex s + Z.of_nat times)
                  mod Z.of_nat (length (filteredOptions s)))).
Proof.
  revert s. induction times as [|times IH]; intros s Hv; unfold selection_valid in Hv.
  - simpl press. rewrite Z.add_0_r, Z.mod_small by lia.
    now rewrite select_same.
  - cbn [press]. rewrite eventListener_down. cbv zeta.
    rewrite IH.
    + rewrite select_select. f_equal. f_equal. simpl.
      set (n := Z.of_nat (length (filteredOptions s))) in *.
      destruct (Z.eqb_spec (selectedOptionIndex s) (n - 1)) as [E|E].
      * rewrite E. replace (n - 1 + Z.of_nat (S times)) with (Z.of_nat times + 1 * n) by lia.
        rewrite Z_mod_plus_full. reflexivity.
      * rewrite Z.min_r by lia. f_equal. lia.
    + unfold selection_valid. simpl.
      destruct (Z.eqb_spec (selectedOptionIndex s)
                  (Z.of_nat (length (filteredOptions s)) - 1)); lia.
Qed.

Lemma press_up (c : closure) (times : nat) (s : state) :
  selection_valid s ->
  press c (Some "up") times s =
  Ok (select s ((selectedOptionIndex s - Z.of_nat times)
                  mod Z.of_nat (length (filteredOptions s)))).
Proof.
  revert s. induction times as [|times IH]; intros s Hv; unfold selection_valid in Hv.
  - simpl press. rewrite Z.sub_0_r, Z.mod_small by lia.
    now rewrite select_same.
  - cbn [press]. rewrite eventListener_up. cbv zeta.
    rewrite IH.
    + rewrite select_select. f_equal. f_equal. simpl.
      set (n := Z.of_nat (length (filteredOptions s))) in *.
      destruct (Z.eqb_spec (selectedOptionIndex s) 0) as [E|E].
      * rewrite E. replace (n - 1 - Z.of_nat times) with (0 - Z.of_nat (S times) + 1 * n) by lia.
        rewrite Z_mod_plus_full. reflexivity.
      * rewrite Z.max_r by lia. f_equal. lia.
    + unfold selection_valid. simpl.
      destruct (Z.eqb_spec (selectedOptionIndex s) 0); lia.
Qed.

(** C4. With [n > 0] options shown and the selection [i] among them, [up]
    selects [n-1] from [0] and [i-1] otherwise, [down] selects [0] from
    [n-1] and [i+1] otherwise, and [n] times [down], like [n] times [up],
    brings the prompt back to the state it started from. *)
Theorem up_down_wrap_around (c : closure) (s : state) :
  let n := length (filteredOptions s) in
  let i := selectedOptionIndex s in
  selection_valid s ->
  eventListener c s (Some "up") =
    Ok (select s (if i =? 0 then Z.of_nat n - 1 else i - 1)) /\
  eventListener c s (Some "down") =
    Ok (select s (if i =? Z.of_nat n - 1 then 0 else i + 1)) /\
  press c (Some "down") n s = Ok s /\
  press c (Some "up") n s = Ok s.
Proof.
  intros n i Hv. pose proof Hv as Hv'. unfold selection_valid in Hv'.
  fold n in Hv'. fold i in Hv'.
  repeat split.
  - rewrite eventListener_up. cbv zeta. fold i. fold n.
    destruct (Z.eqb_spec i 0); [reflexivity|]. now rewrite Z.max_r by lia.
  - rewrite eventListener_down. cbv zeta. fold i. fold n.
    destruct (Z.eqb_spec i (Z.of_nat n - 1)); [reflexivity|].
    now rewrite Z.min_r by lia.
  - rewrite press_down by assumption. fold n. fold i.
    replace (i + Z.of_nat n) with (i + 1 * Z.of_nat n) by lia.
    rewrite Z_mod_plus_full, Z.mod_small by lia.
    apply f_equal, select_same.
  - rewrite press_up by assumption. fold n. fold i.
    replace (i - Z.of_nat n) with (i + (-1) * Z.of_nat n) by lia.
    rewrite Z_mod_plus_full, Z.mod_small by lia.
    apply f_equal, select_same.
Qed.

End Navigation.

Lemma up_down_wrap_around_witness :
  let c := make_closure 24 "Sure?" yes_no in
  let s := select (initial_state yes_no) 1 in
  selection_valid s /\
  press (host := node) c (Some "down") 2 s = Ok s /\
  press (host := node) c (Some "up") 2 s = Ok s.
Proof.
  assert (Hv : selection_valid (select (initial_state yes_no) 1))
    by (unfold selection_valid; simpl; lia).
  split; [exact Hv|].
  exact (proj2 (proj2
    (up_down_wrap_around (host := node) (make_closure 24 "Sure?" yes_no)
       (select (initial_state yes_no) 1) Hv))).
Defined.

(** ** Filter edits *)

Section FilterEdits.
Context {host : ArraySort}.

(** Every key that is not taken by an earlier branch re-reads the buffer. *)
Lemma eventListener_filter_edit (c : closure) (s : state)
    (key : option string) :
  filter_edit c key = true ->
  eventListener c s key =
  match (if key_is key "escape" then Some "" else line s) with
  | None => Throw
  | Some buffer =>
      Ok {| selectedOptionIndex := 0;
            questionIndex := questionIndex s;
            filter := toLowerCase buffer;
            filteredOptions := filterOptions (options c) (toLowerCase buffer);
            line := Some buffer |}
  end.
Proof.
  unfold filter_edit, eventListener. intros H.
  apply negb_true_iff in H.
  repeat (apply orb_false_elim in H as [H ?]).
  repeat match goal with E : _ = false |- _ => rewrite E; clear E end.
  reflexivity.
Qed.

Lemma page_keys_are_filter_edits (c : closure) (key : option string) :
  scrollbar c = false ->
  key = Some "pageup" \/ key = Some "pagedown" ->
  filter_edit c key = true /\ key_is key "escape" = false.
Proof.
  unfold filter_edit. intros -> [-> | ->]; split; reflexivity.
Qed.

(** C3. When no option's name contains [f], whatever the case of the
    letters, the options shown for [f] are all the options in their
    original order, and the filter edit that shows them selects index 0. *)
Theorem fallback_when_nothing_matches (c : closure) (s : state)
    (key : option string) (f : string) :
  (forall o, In o (options c) ->
     includes (toLowerCase (name o)) (toLowerCase f) = false) ->
  filterOptions (options c) (toLowerCase f) = options c /\
  (line s = Some f -> filter_edit c key = true ->
   exists s', eventListener c s key = Ok s' /\
              filteredOptions s' = options c /\
              selectedOptionIndex s' = 0).
Proof.
  intros Hno. split; [now apply filterOptions_no_match|].
  intros Hline Hedit. rewrite (eventListener_filter_edit _ _ _ Hedit).
  destruct (key_is key "escape").
  - eexists; split; [reflexivity|]. simpl.
    split; [apply filterOptions_empty_filter|reflexivity].
  - rewrite Hline. eexists; split; [reflexivity|]. simpl.
    split; [now apply filterOptions_no_match|reflexivity].
Qed.

(** C5, as the code has it. Without a scrollbar, [pageup] and [pagedown]
    fall through to the filter edit: the scroll offset stays, the filter
    and the options shown are computed again from the edit buffer, and the
    selection goes back to 0; when the filter already agrees with the
    buffer, the selection is all that changes. *)
Theorem page_keys_without_scrollbar (c : closure) (s : state)
    (key : option string) (buffer : string) :
  scrollbar c = false ->
  key = Some "pageup" \/ key = Some "pagedown" ->
  line s = Some buffer ->
  eventListener c s key =
    Ok {| selectedOptionIndex := 0;
          questionIndex := questionIndex s;
          filter := toLowerCase buffer;
          filteredOptions := filterOptions (options c) (toLowerCase buffer);
          line := Some buffer |} /\
  (filter s = toLowerCase buffer ->
   filteredOptions s = filterOptions (options c) (filter s) ->
   eventListener c s key = Ok (select s 0)).
Proof.
  intros Hbar Hkey Hline.
  destruct (page_keys_are_filter_edits c key Hbar Hkey) as [Hedit Hesc].
  rewrite (eventListener_filter_edit _ _ _ Hedit), Hesc, Hline.
  split; [reflexivity|].
  intros Hf Hshown. unfold select. rewrite Hshown, Hf, Hline. reflexivity.
Qed.

(** C10. [escape] empties the edit buffer and then takes the path of every
    filter edit: afterwards the filter is empty, all the options are shown
    in their original order and the selection is 0, whether the key comes
    from the keyboard or from the parent process. *)
Theorem escape_shows_all_options (c : closure) (s : state) (buffer : string) :
  let cleared :=
    {| selectedOptionIndex := 0;
       questionIndex := questionIndex s;
       filter := "";
       filteredOptions := options c;
       line := Some "" |} in
  eventListener c s (Some "escape") = Ok cleared /\
  on_event c s (Keypress (Some "escape") buffer) = Continue cleared /\
  on_event c s (Data "►:keypress:escape") = Continue cleared.
Proof.
  assert (E : forall s', questionIndex s' = questionIndex s ->
              eventListener c s' (Some "escape") =
              Ok {| selectedOptionIndex := 0;
                    questionIndex := questionIndex s;
                    filter := "";
                    filteredOptions := options c;
                    line := Some "" |}).
  { intros s' Hq. rewrite eventListener_filter_edit.
    - simpl. now rewrite filterOptions_empty_filter, Hq.
    - unfold filter_edit. simpl. now rewrite !andb_false_r. }
  cbv zeta. repeat split.
  - now apply E.
  - unfold on_event. now rewrite E.
  - unfold on_event, on_data. simpl. now rewrite E.
Qed.

End FilterEdits.

Lemma fallback_when_nothing_matches_witness :
  let c := make_closure 24 "Sure?" yes_no in
  filterOptions (host := node) yes_no "zz" = yes_no /\
  exists s', eventListener (host := node) c
               (with_line (initial_state yes_no) (Some "ZZ")) (Some "z") = Ok s' /\
             filteredOptions s' = yes_no /\ selectedOptionIndex s' = 0.
Proof.
  assert (Hno : forall o, In o (options (make_closure 24 "Sure?" yes_no)) ->
                  includes (toLowerCase (name o)) (toLowerCase "ZZ") = false).
  { simpl. intros o [<- | [<- | []]]; reflexivity. }
  pose proof (fallback_when_nothing_matches (host := node)
                (make_closure 24 "Sure?" yes_no)
                (with_line (initial_state yes_no) (Some "ZZ")) (Some "z") "ZZ" Hno)
    as [Hall Hedit].
  split; [exact Hall|].
  apply Hedit; reflexivity.
Defined.

Lemma page_keys_without_scrollbar_witness :
  let c := make_closure 24 "Sure?" yes_no in
  let s := select (initial_state yes_no) 1 in
  scrollbar c = false /\
  eventListener (host := node) c s (Some "pagedown") = Ok (select s 0).
Proof.
  split; [reflexivity|].
  apply (page_keys_without_scrollbar (host := node)
           (make_closure 24 "Sure?" yes_no)
           (select (initial_state yes_no) 1) (Some "pagedown") "");
    solve [reflexivity | right; reflexivity].
Defined.

(** C5, as the specification states it, fails: in a terminal of 24 rows the question
    [Sure?] needs no scrollbar, and [pageup] after [down] moves the selection
    from [No] back to [Yes], which return then answers. *)
Lemma page_key_moves_selection :
  let c := make_closure 24 "Sure?" yes_no in
  let s := select (initial_state yes_no) 1 in
  scrollbar c = false /\
  replay (host := node) c (initial_state yes_no) ∅ [Keypress (Some "down") ""]
    = Some (s, ∅) /\
  on_event (host := node) c s (Keypress (Some "pageup") "") <> Continue s /\
  askQuestion (host := node) "Sure?" [RString "Yes"; RString "No"]
    (tty [Keypress (Some "down") ""; Keypress (Some "pageup") ""; Line ""])
    = Done (VStr "Yes", tty []).
Proof.
  repeat split; try reflexivity.
  simpl. discriminate.
Qed.

(** ** Free text *)

Section FreeText.
Context {host : ArraySort}.

Lemma await_answer_not_empty (events : list event) (fs : gmap string string)
    (answer : string) (fs' : gmap string string) (rest : list event) :
  await_answer fs events = Done (answer, fs', rest) -> answer <> "".
Proof.
  revert fs. induction events as [|ev events IH]; intros fs; simpl.
  - discriminate.
  - destruct ev as [key buffer|typed|chunk|op]; try apply IH.
    destruct typed as [|a typed]; simpl; [apply IH|].
    intros [= <- _ _]. discriminate.
Qed.

(** C7. Without options (none supplied, or none of them truthy) an empty
    line leaves the prompt asking: the events after it decide as if it had
    not been typed. A line that is not empty ends the prompt, which returns
    that line as typed, and no run of the prompt returns the empty string. *)
Theorem free_text_rejects_empty_line (question : string)
    (raw : list raw_option) (w : world) :
  List.filter truthy raw = [] ->
  (forall rest,
     askQuestion question raw (with_input w (fs w) (Line "" :: rest)) =
     askQuestion question raw (with_input w (fs w) rest)) /\
  (forall answer rest, answer <> "" ->
     askQuestion question raw (with_input w (fs w) (Line answer :: rest)) =
     Done (VStr answer, with_input w (fs w) rest)) /\
  askQuestion question raw (with_input w (fs w) [Line ""]) = Pending /\
  (forall v w', askQuestion question raw w = Done (v, w') ->
     exists answer, v = VStr answer /\ answer <> "").
Proof.
  intros Hfree. unfold askQuestion. rewrite Hfree. simpl.
  repeat split.
  - intros [|a answer] rest Hne; [congruence|reflexivity].
  - destruct (await_answer (fs w) (input w)) as [[[answer fs'] rest]| | |] eqn:E;
      try discriminate.
    intros v w' [= <- _]. exists answer. split; [reflexivity|].
    eapply await_answer_not_empty; eassumption.
Qed.

End FreeText.

Lemma free_text_rejects_empty_line_witness :
  askQuestion (host := node) "Name?" [RFalsy; RString ""]
    (tty [Line ""; Line "x"]) = Done (VStr "x", tty []).
Proof.
  destruct (free_text_rejects_empty_line (host := node) "Name?"
              [RFalsy; RString ""] (tty []) eq_refl) as [Hempty [Hline _]].
  change (tty [Line ""; Line "x"])
    with (with_input (tty []) (fs (tty [])) [Line ""; Line "x"]).
  rewrite Hempty. apply Hline. discriminate.
Defined.

(** ** Submitting a selection *)

Section Submit.
Context {host : ArraySort}.

Lemma with_line_valid (s : state) (buffer : option string) :
  selection_valid s -> selection_valid (with_line s buffer).
Proof. exact (fun H => H). Qed.

Lemma eventListener_valid (c : closure) (s s' : state) (key : option string) :
  options c <> [] -> selection_valid s ->
  eventListener c s key = Ok s' -> selection_valid s'.
Proof.
  intros Hne Hv. unfold selection_valid in Hv.
  destruct (filter_edit c key) eqn:Hedit.
  - rewrite (eventListener_filter_edit _ _ _ Hedit).
    destruct (if key_is key "escape" then _ else _); [|discriminate].
    intros [= <-]. unfold selection_valid; simpl.
    pose proof (filterOptions_not_nil (options c) (toLowerCase s0) Hne).
    destruct (filterOptions _ _); [congruence|simpl; lia].
  - revert Hedit. unfold filter_edit, eventListener.
    destruct (key_is key "return"); [now intros _ [= <-]|].
    destruct (key_is key "up").
    { intros _ [= <-]. unfold selection_valid; simpl.
      destruct (Z.eqb_spec (selectedOptionIndex s) 0); lia. }
    destruct (key_is key "down").
    { intros _ [= <-]. unfold selection_valid; simpl.
      destruct (Z.eqb_spec (selectedOptionIndex s)
                  (Z.of_nat (length (filteredOptions s)) - 1)); lia. }
    destruct (scrollbar c && key_is key "pageup"); [now intros _ [= <-]|].
    destruct (scrollbar c && key_is key "pagedown"); [now intros _ [= <-]|].
    discriminate.
Qed.

Lemma on_event_valid (c : closure) (s s' : state) (ev : event) :
  options c <> [] -> selection_valid s ->
  on_event c s ev = Continue s' -> selection_valid s'.
Proof.
  intros Hne Hv. destruct ev as [key buffer|typed|chunk|op]; simpl.
  - destruct (eventListener c _ key) eqn:E; [|discriminate].
    intros [= <-]. eapply eventListener_valid; [exact Hne| |exact E].
    exact Hv.
  - discriminate.
  - unfold on_data.
    destruct (negb _); [now intros [= <-]|].
    destruct (tl _) as [|command args]; [now intros [= <-]|].
    destruct (String.eqb command "keypress").
    { destruct (eventListener c s _) eqn:E; [|discriminate].
      intros [= <-]. eapply eventListener_valid; eassumption. }
    destruct (String.eqb command "set_line"); [now intros [= <-]|].
    destruct (String.eqb command "submit"); [discriminate|].
    now intros [= <-].
  - now intros [= <-].
Qed.

Lemma replay_valid (c : closure) (events : list event) (s s' : state)
    (fs fs' : gmap string string) :
  options c <> [] -> selection_valid s ->
  replay c s fs events = Some (s', fs') -> selection_valid s'.
Proof.
  intros Hne. revert s fs.
  induction events as [|ev events IH]; intros s fs Hv; simpl.
  - now intros [= <- _].
  - destruct ev as [key buffer|typed|chunk|op];
      try (destruct (on_event c s _) as [s1| |] eqn:E; [|discriminate..];
           apply IH; eapply on_event_valid; eassumption).
    now apply IH.
Qed.

Lemma await_response_replay (c : closure) (events rest : list event)
    (s s' : state) (fs fs' : gmap string string) :
  replay c s fs events = Some (s', fs') ->
  await_response c s fs (events ++ rest) = await_response c s' fs' rest.
Proof.
  revert s fs. induction events as [|ev events IH]; intros s fs; simpl.
  - now intros [= <- <-].
  - destruct ev as [key buffer|typed|chunk|op];
      try (destruct (on_event c s _) as [s1| |] eqn:E; [|discriminate..];
           apply IH).
    apply IH.
Qed.

Lemma at_index_valid (s : state) :
  selection_valid s ->
  exists response,
    at_index (filteredOptions s) (selectedOptionIndex s) = Some response.
Proof.
  unfold selection_valid, at_index. intros Hv.
  destruct (Z.ltb_spec (selectedOptionIndex s) 0); [lia|].
  destruct (nth_error _ _) eqn:E; [eauto|].
  apply nth_error_None in E. lia.
Qed.

Lemma normalize_not_nil (raw : list raw_option) :
  List.filter truthy raw <> [] -> normalize raw <> [].
Proof.
  unfold normalize. destruct (List.filter truthy raw); [congruence|].
  discriminate.
Qed.

Lemma askQuestion_options (question : string) (raw : list raw_option)
    (w : world) :
  List.filter truthy raw <> [] ->
  askQuestion question raw w =
  match await_response (make_closure (rows w) question (normalize raw))
          (initial_state (normalize raw)) (fs w) (input w) with
  | Done (Some response, fs', rest) =>
      Done (value_of response, with_input w fs' rest)
  | Done (None, _, _) => Crash
  | Pending => Pending
  | Crash => Crash
  | OutOfFuel => OutOfFuel
  end.
Proof.
  intros Hne. unfold askQuestion, normalize.
  destruct (List.filter truthy raw); [congruence|reflexivity].
Qed.

(** C2. With options, return ends the prompt, and so does the [submit] of
    the parent process; [askQuestion] then returns the value of the option
    at the selected index of the options shown, which exists. For [Yes]
    and [No], [down] followed by return gives ["No"]. *)
Theorem submit_returns_selected_value (question : string)
    (raw : list raw_option) (w : world) (before rest : list event)
    (submit : event) (s : state) (fs' : gmap string string) :
  List.filter truthy raw <> [] ->
  (exists typed, submit = Line typed) \/ submit = Data "►:submit" ->
  replay (make_closure (rows w) question (normalize raw))
    (initial_state (normalize raw)) (fs w) before = Some (s, fs') ->
  exists response,
    at_index (filteredOptions s) (selectedOptionIndex s) = Some response /\
    askQuestion question raw
      (with_input w (fs w) (before ++ submit :: rest)) =
    Done (value_of response, with_input w fs' rest) /\
    (raw = [RString "Yes"; RString "No"] ->
     (exists buffer, before = [Keypress (Some "down") buffer]) ->
     value_of response = VStr "No").
Proof.
  intros Hne Hsubmit Hreplay.
  assert (Hv : selection_valid s).
  { eapply replay_valid; [| |exact Hreplay].
    - simpl. now apply normalize_not_nil.
    - unfold selection_valid, initial_state; simpl.
      pose proof (normalize_not_nil raw Hne).
      destruct (normalize raw); [congruence|simpl; lia]. }
  destruct (at_index_valid s Hv) as [response Hresponse].
  exists response. split; [exact Hresponse|]. split.
  - rewrite askQuestion_options by exact Hne. simpl rows. simpl fs. simpl input.
    rewrite (await_response_replay _ _ _ _ _ _ _ Hreplay).
    destruct Hsubmit as [[typed ->] | ->]; simpl; rewrite Hresponse;
      reflexivity.
  - intros -> [buffer ->]. vm_compute in Hreplay.
    injection Hreplay as <- _. vm_compute in Hresponse.
    now injection Hresponse as <-.
Qed.

End Submit.

Lemma submit_returns_selected_value_witness :
  askQuestion (host := node) "Sure?" [RString "Yes"; RString "No"]
    (tty [Keypress (Some "down") ""; Line ""]) = Done (VStr "No", tty []).
Proof.
  destruct (submit_returns_selected_value (host := node) "Sure?"
              [RString "Yes"; RString "No"] (tty [])
              [Keypress (Some "down") ""] [] (Line "")
              (select (initial_state yes_no) 1) ∅)
    as [response [_ [Hask Hno]]].
  - discriminate.
  - left. exists "". reflexivity.
  - reflexivity.
  - change (tty [Keypress (Some "down") ""; Line ""])
      with (with_input (tty []) (fs (tty []))
              ([Keypress (Some "down") ""] ++ [Line ""])).
    rewrite Hask, Hno; [reflexivity|reflexivity|].
    exists "". reflexivity.
Defined.

(** ** Commands of the parent process *)

Section Injection.
Context {host : ArraySort}.


Lemma on_data_keypress (c : closure) (s : state) (key : string) :
  no_colon key ->
  on_data c s ("►:keypress:" ++ key) =
  match eventListener c s (Some key) with
  | Ok s' => Continue s'
  | Throw => Raise
  end.
Proof.
  intros Hkey. unfold on_data.
  rewrite !append_String, append_EmptyString.
  cbn [startsWith negb Ascii.eqb Bool.eqb andb split tl].
  rewrite (split_no_colon key Hkey).
  reflexivity.
Qed.



End Injection.



(** ** Ranking *)

(** C1, on the code. The comparator of lines 86-90 answers -1 whenever its
    first argument starts with the filter, also when the second does: for
    ["apple"] and ["apricot"] under ["ap"] it puts each before the other, and
    the difference of the indices in line 89 is never reached. Node's sort
    asks it for [apricot] against [apple] and shows [apricot] first, against
    the original order. *)
Theorem prefix_matches_lose_original_order :
  let options := normalize [RString "apple"; RString "apricot"] in
  let apple := {| ident := Fresh 0; name := "apple"; value_of := VStr "apple" |} in
  let apricot :=
    {| ident := Fresh 1; name := "apricot"; value_of := VStr "apricot" |} in
  options = [apple; apricot] /\
  prefixed "ap" apple = true /\ prefixed "ap" apricot = true /\
  compare options "ap" apple apricot = -1 /\
  compare options "ap" apricot apple = -1 /\
  matching (host := node) options "ap" = [apricot; apple] /\
  filterOptions (host := node) options "ap" = [apricot; apple].
Proof. repeat split. Qed.

(** Scenario B of the specification: under ["ap"], [Apple] and [Grape] are
    shown in this order and [Banana] is not. *)
Example apple_before_grape :
  List.map name
    (filterOptions (host := node)
       (normalize [RObject 0 "Apple" (VNum 1); RObject 1 "Banana" (VNum 2);
                   RObject 2 "Grape" (VNum 3)]) "ap") = ["Apple"; "Grape"].
Proof. reflexivity. Qed.

(** ** The template file *)

Lemma strict_eq_VStr (v : value) (s : string) :
  strict_eq v (VStr s) = true <-> v = VStr s.
Proof.
  destruct v; simpl; split; try discriminate.
  - intros H. apply String.eqb_eq in H. now subst.
  - intros [= ->]. apply String.eqb_refl.
Qed.

Lemma cleanup_removes (file : string) (w : world) :
  cleanup file w = Ok (removed file w) /\ fs (removed file w) !! file = None.
Proof.
  split; [|apply lookup_delete_eq].
  unfold cleanup, removed, existsSync, unlinkSync.
  destruct (fs w !! file) eqn:E; [reflexivity|].
  now rewrite (delete_id _ _ E).
Qed.

Section Template.
Context {host : ArraySort}.

Lemma leave_removes (file : string) (result : value) (w : world) :
  leave file result w = Done (Break result (removed file w)).
Proof. unfold leave. now rewrite (proj1 (cleanup_removes file w)). Qed.

Lemma await_response_shorter (c : closure) (events : list event) (s : state)
    (fs fs' : gmap string string) (response : option answer)
    (rest : list event) :
  await_response c s fs events = Done (response, fs', rest) ->
  (length rest < length events)%nat.
Proof.
  revert s fs. induction events as [|ev events IH]; intros s fs; simpl.
  - discriminate.
  - destruct ev as [key buffer|typed|chunk|op];
      try (destruct (on_event c s _) as [s1|r|];
           [intros H; apply IH in H; lia
           |intros [= _ _ <-]; lia
           |discriminate]).
    intros H; apply IH in H; lia.
Qed.

Lemma await_answer_shorter (events : list event)
    (fs fs' : gmap string string) (answer : string) (rest : list event) :
  await_answer fs events = Done (answer, fs', rest) ->
  (length rest < length events)%nat.
Proof.
  revert fs. induction events as [|ev events IH]; intros fs; simpl.
  - discriminate.
  - destruct ev as [key buffer|typed|chunk|op];
      try (intros H; apply IH in H; lia).
    destruct (truthy_string typed).
    + intros [= _ _ <-]; lia.
    + intros H; apply IH in H; lia.
Qed.

(** A prompt that returns has taken at least one event. *)
Lemma askQuestion_shorter (question : string) (raw : list raw_option)
    (w w' : world) (v : value) :
  askQuestion question raw w = Done (v, w') ->
  (length (input w') < length (input w))%nat.
Proof.
  unfold askQuestion.
  destruct (length (List.filter truthy raw) =? 0)%nat.
  - destruct (await_answer _ _) as [[[answer fs'] rest]| | |] eqn:E;
      try discriminate.
    intros [= _ <-]. simpl. eapply await_answer_shorter; eassumption.
  - destruct (await_response _ _ _ _) as [[[[response|] fs'] rest]| | |] eqn:E;
      try discriminate.
    intros [= _ <-]. simpl. eapply await_response_shorter; eassumption.
Qed.

(** A prompt is one pass over the events. *)
Lemma askQuestion_fuel (question : string) (raw : list raw_option)
    (w : world) :
  askQuestion question raw w <> OutOfFuel.
Proof.
  assert (Hresponse : forall c events s fs,
            await_response c s fs events <> OutOfFuel).
  { intros c events. induction events as [|ev events IH]; intros s fs; simpl.
    - discriminate.
    - destruct ev as [key buffer|typed|chunk|op];
        try (destruct (on_event c s _); [apply IH|discriminate..]).
      apply IH. }
  assert (Hanswer : forall events fs, await_answer fs events <> OutOfFuel).
  { intros events. induction events as [|ev events IH]; intros fs; simpl.
    - discriminate.
    - destruct ev as [key buffer|typed|chunk|op]; try apply IH.
      destruct (truthy_string typed); [discriminate|apply IH]. }
  unfold askQuestion.
  destruct (length (List.filter truthy raw) =? 0)%nat.
  - pose proof (Hanswer (input w) (fs w)).
    destruct (await_answer _ _) as [[[answer fs'] rest]| | |];
      congruence.
  - match goal with
    | |- context [await_response ?c ?s ?f ?e] =>
        pose proof (Hresponse c e s f);
        destruct (await_response c s f e) as [[[[response|] fs'] rest]| | |]
    end; congruence.
Qed.

(** The rounds of the menu never outnumber the events: with more fuel than
    events the loop ends by itself or waits for input. *)
Lemma menu_loop_fuel (fuel : nat) (question file content : string)
    (w : world) :
  (length (input w) < fuel)%nat ->
  menu_loop fuel question file content w <> OutOfFuel.
Proof.
  revert w. induction fuel as [|fuel IH]; intros w Hfuel; [lia|].
  cbn [menu_loop]. unfold menu_round.
  destruct (askQuestion question (menu file) w) as [[task w1]| | |] eqn:Hmenu;
    try discriminate.
  2: { now apply askQuestion_fuel in Hmenu. }
  apply askQuestion_shorter in Hmenu. unfold execSync.
  assert (Hw1 : menu_loop fuel question file content w1 <> OutOfFuel)
    by (apply IH; lia).
  destruct (strict_eq task (VStr "openEditor")); cbv zeta;
    (destruct (strict_eq task (VStr "continue"));
     [|destruct (strict_eq task (VStr "abort"));
       [rewrite leave_removes; discriminate|exact Hw1]]).
  all: destruct (negb (existsSync file (fs w1)));
    [|destruct (readFile file (fs w1)) as [result|]; [|discriminate]].
  all: match goal with
       | |- context [String.eqb ?r ?c] => destruct (String.eqb r c)
       end; try (rewrite leave_removes; discriminate).
  all: match goal with
       | |- context [askQuestion unmodified_question ?o ?w2] =>
           destruct (askQuestion unmodified_question o w2)
             as [[yesno w3]| | |] eqn:Hconfirm
       end; try discriminate.
  all: try (now apply askQuestion_fuel in Hconfirm).
  all: apply askQuestion_shorter in Hconfirm; simpl in Hconfirm;
    destruct (strict_eq yesno (VStr "Yes"));
    [rewrite leave_removes; discriminate|apply IH; lia].
Qed.

(** A prompt leaves a file as it is, unless another process changes it
    meanwhile. *)
Lemma askQuestion_leaves_file (question file : string)
    (raw : list raw_option) (w w' : world) (v : value) :
  List.Forall (leaves_file file) (input w) ->
  askQuestion question raw w = Done (v, w') ->
  fs w' !! file = fs w !! file.
Proof.
  assert (Hop : forall op fs0, leaves_file file (External op) ->
            apply_op op fs0 !! file = fs0 !! file).
  { intros [path text|path] fs0 Hpath; simpl in *.
    - now apply lookup_insert_ne.
    - now apply lookup_delete_ne. }
  intros Hquiet. unfold askQuestion.
  destruct (length (List.filter truthy raw) =? 0)%nat.
  - destruct (await_answer _ _) as [[[answer fs'] rest]| | |] eqn:E;
      try discriminate.
    intros [= _ <-]. cbn [fs with_input].
    revert E Hquiet. generalize (fs w). generalize (input w).
    intros events. induction events as [|ev events IH]; intros fs0; simpl;
      [discriminate|].
    intros E Hquiet. inversion_clear Hquiet as [|? ? Hev Hevents].
    destruct ev as [key buffer|typed|chunk|op]; try (now apply IH).
    + destruct (truthy_string typed); [|now apply IH].
      now injection E as _ <- _.
    + rewrite (IH _ E Hevents). now apply Hop.
  - destruct (await_response _ _ _ _) as [[[[response|] fs'] rest]| | |] eqn:E;
      try discriminate.
    intros [= _ <-]. cbn [fs with_input].
    revert E Hquiet. generalize (initial_state (imap to_answer (List.filter truthy raw))).
    generalize (fs w). generalize (input w).
    intros events. induction events as [|ev events IH]; intros fs0 s0; simpl;
      [discriminate|].
    intros E Hquiet. inversion_clear Hquiet as [|? ? Hev Hevents].
    destruct ev as [key buffer|typed|chunk|op];
      try (destruct (on_event _ s0 _) as [s1|r|];
           [now apply (IH _ s1)|now injection E as _ <- _|discriminate]).
    rewrite (IH _ _ E Hevents). now apply Hop.
Qed.

(** C8. After [continue], a file that is gone is written again with the
    initial content, which is then the result. Whenever the result is the
    initial content, the flow asks for confirmation and waits for the
    answer. On ["Yes"] the round breaks: the flow returns the content and
    the file is removed. On any other answer the round ends and the menu is
    asked again, in the world the confirmation has left: the file that was
    written again is there, with the initial content, unless another process
    has changed it meanwhile. *)
Theorem continue_with_unmodified_template (fuel : nat)
    (question file content : string) (w w1 : world) :
  askQuestion question (menu file) w = Done (VStr "continue", w1) ->
  fs w1 !! file = None \/ fs w1 !! file = Some content ->
  let w2 := with_fs w1 (writeFile file content (fs w1)) in
  let confirmation :=
    askQuestion unmodified_question [RString "Yes"; RString "No"] w2 in
  (fs w1 !! file = Some content -> w2 = w1) /\
  (confirmation = Pending ->
   menu_round question file content w = Pending /\
   menu_loop (S fuel) question file content w = Pending) /\
  (forall w3, confirmation = Done (VStr "Yes", w3) ->
     menu_round question file content w =
       Done (Break (VStr content) (removed file w3)) /\
     menu_loop (S fuel) question file content w =
       Done (VStr content, removed file w3) /\
     fs (removed file w3) !! file = None) /\
  (forall yesno w3, confirmation = Done (yesno, w3) ->
     yesno <> VStr "Yes" ->
     menu_round question file content w = Done (Again w3) /\
     menu_loop (S fuel) question file content w =
       menu_loop fuel question file content w3 /\
     (List.Forall (leaves_file file) (input w1) ->
      fs w3 !! file = Some content)).
Proof.
  intros Hmenu Hfile w2 confirmation.
  assert (Hsame : fs w1 !! file = Some content -> w2 = w1).
  { intros E. unfold w2, writeFile. rewrite (insert_id _ _ _ E).
    now destruct w1. }
  assert (Hstep : menu_round question file content w =
            match confirmation with
            | Done (yesno, w3) =>
                if strict_eq yesno (VStr "Yes")
                then leave file (VStr content) w3
                else Done (Again w3)
            | Pending => Pending
            | Crash => Crash
            | OutOfFuel => OutOfFuel
            end).
  { unfold menu_round. rewrite Hmenu.
    cbn [strict_eq String.eqb Ascii.eqb Bool.eqb].
    unfold execSync, existsSync, readFile.
    destruct Hfile as [E | E].
    - rewrite E. cbn [negb]. now rewrite String.eqb_refl.
    - rewrite E. cbn [negb]. rewrite String.eqb_refl.
      fold confirmation. unfold confirmation. now rewrite (Hsame E). }
  split; [exact Hsame|].
  cbn [menu_loop]. rewrite Hstep. split; [|split].
  - now intros ->.
  - intros w3 ->. cbn [strict_eq]. rewrite String.eqb_refl, leave_removes.
    repeat split. apply lookup_delete_eq.
  - intros yesno w3 Hconfirm Hno. rewrite Hconfirm.
    destruct (strict_eq yesno (VStr "Yes")) eqn:E;
      [apply strict_eq_VStr in E; contradiction|].
    repeat split. intros Hquiet.
    rewrite (askQuestion_leaves_file _ file _ w2 w3 yesno Hquiet Hconfirm).
    apply lookup_insert_eq.
Qed.

(** C9. In whatever round [abort] is chosen, the round breaks after the
    cleanup and the flow returns [false], with the file gone. The cleanup
    removes the file only when it is there: it throws neither with the file
    nor without it, and without it leaves the file system as it is. *)
Theorem abort_returns_false (fuel : nat) (question file content : string)
    (w w1 : world) :
  askQuestion question (menu file) w = Done (VStr "abort", w1) ->
  menu_round question file content w =
    Done (Break (VBool false) (removed file w1)) /\
  menu_loop (S fuel) question file content w =
    Done (VBool false, removed file w1) /\
  fs (removed file w1) !! file = None /\
  (forall w', exists w'',
     cleanup file w' = Ok w'' /\ fs w'' !! file = None /\
     (fs w' !! file = None -> fs w'' = fs w')).
Proof.
  intros Hmenu.
  assert (Hround : menu_round question file content w =
                   Done (Break (VBool false) (removed file w1))).
  { unfold menu_round. rewrite Hmenu.
    cbn [strict_eq String.eqb Ascii.eqb Bool.eqb]. apply leave_removes. }
  split; [exact Hround|]. split; [cbn [menu_loop]; now rewrite Hround|].
  split; [apply lookup_delete_eq|].
  intros w'. exists (removed file w').
  split; [apply cleanup_removes|]. split; [apply lookup_delete_eq|].
  intros Hgone. cbn. now apply delete_id.
Qed.

End Template.

(** The template is removed from outside while the menu waits; [continue]
    writes it again, and after ["No"] the menu finds it with the initial
    content. After ["Yes"] the content is returned and the file is gone. *)
Lemma continue_with_unmodified_template_witness :
  let w := started "notes.md" "hello"
             (tty (External (Unlink "notes.md") :: down_submit ++ down_submit)) in
  let w' := started "notes.md" "hello"
              (tty (down_submit ++ [Data "►:submit"])) in
  (exists w3, menu_round (host := node) "Edit?" "notes.md" "hello" w =
                Done (Again w3) /\
              fs w3 !! "notes.md" = Some "hello") /\
  menu_loop (host := node) 1 "Edit?" "notes.md" "hello" w' =
    Done (VStr "hello", tty []).
Proof.
  intros w w'. split.
  - assert (Hmenu : askQuestion (host := node) "Edit?" (menu "notes.md") w =
              Done (VStr "continue",
                    with_fs (started "notes.md" "hello" (tty down_submit)) ∅))
      by (vm_compute; reflexivity).
    destruct (continue_with_unmodified_template (host := node) 0 "Edit?"
                "notes.md" "hello" w _ Hmenu (or_introl eq_refl))
      as (_ & _ & _ & Hno).
    destruct (Hno (VStr "No") (started "notes.md" "hello" (tty [])))
      as (Hround & _ & Hthere).
    + vm_compute. reflexivity.
    + discriminate.
    + eexists. split; [exact Hround|].
      apply Hthere. repeat constructor.
  - assert (Hmenu : askQuestion (host := node) "Edit?" (menu "notes.md") w' =
              Done (VStr "continue",
                    started "notes.md" "hello" (tty [Data "►:submit"])))
      by (vm_compute; reflexivity).
    destruct (continue_with_unmodified_template (host := node) 0 "Edit?"
                "notes.md" "hello" w' _ Hmenu
                (or_intror (lookup_insert_eq _ _ _)))
      as (_ & _ & Hyes & _).
    destruct (Hyes (started "notes.md" "hello" (tty [])))
      as (_ & Hloop & _).
    + vm_compute. reflexivity.
    + rewrite Hloop. vm_compute. reflexivity.
Defined.

(** [abort] in the third round, after the editor and after [continue]
    answered with ["No"]. *)
Lemma abort_returns_false_witness :
  let w := started "notes.md" "hello"
             (tty [Data "►:keypress:up"; Data "►:submit"]) in
  menu_loop (host := node) 1 "Edit?" "notes.md" "hello" w =
    Done (VBool false, tty []) /\
  askFileInput (host := node) 3 "Edit?" "notes.md" "hello"
    (tty ([Data "►:submit"] ++ down_submit ++ down_submit
          ++ [Data "►:keypress:up"; Data "►:submit"])) =
    Done (VBool false, tty []).
Proof.
  intros w. split; [|vm_compute; reflexivity].
  refine (eq_trans (proj1 (proj2
    (abort_returns_false (host := node) 0 "Edit?" "notes.md" "hello" w
       (started "notes.md" "hello" (tty [])) _))) _).
  - vm_compute. reflexivity.
  - vm_compute. reflexivity.
Defined.

(** * The frame *)

(** ** Slices *)

Lemma slice_from (A : Type) (a : list A) (start count : Z) :
  0 <= start -> 0 <= count ->
  slice a start (start + count) =
  firstn (Z.to_nat count) (skipn (Z.to_nat start) a).
Proof.
  intros Hstart Hcount. unfold slice.
  destruct (Z.ltb_spec start 0); [lia|].
  destruct (Z.ltb_spec (start + count) 0); [lia|].
  set (len := Z.of_nat (length a)).
  destruct (Z.le_gt_cases start len) as [Hin|Hout].
  - rewrite (Z.min_l start len) by lia.
    destruct (Z.le_gt_cases (start + count) len).
    + rewrite Z.min_l by lia. f_equal. lia.
    + rewrite Z.min_r by lia.
      rewrite !firstn_all2; [reflexivity| |]; rewrite length_skipn; lia.
  - rewrite !Z.min_r by lia.
    rewrite !skipn_all2 by lia. now rewrite !firstn_nil.
Qed.

Lemma slice_length (A : Type) (a : list A) (start count : Z) :
  0 <= start -> 0 <= count ->
  length (slice a start (start + count)) =
  Nat.min (Z.to_nat count) (length a - Z.to_nat start).
Proof.
  intros Hstart Hcount. rewrite slice_from by assumption.
  now rewrite length_firstn, length_skipn.
Qed.

Lemma slice_at_index (A : Type) (a : list A) (start count i : Z) :
  0 <= start -> 0 <= i < count ->
  at_index (slice a start (start + count)) i = at_index a (start + i).
Proof.
  intros Hstart Hi. rewrite slice_from by lia. unfold at_index.
  destruct (Z.ltb_spec i 0); [lia|].
  destruct (Z.ltb_spec (start + i) 0); [lia|].
  rewrite nth_error_firstn.
  destruct (Nat.ltb_spec (Z.to_nat i) (Z.to_nat count)); [|lia].
  rewrite nth_error_skipn. f_equal. lia.
Qed.

Lemma firstn_skipn_In (A : Type) (a : list A) (n k : nat) (x : A) :
  In x (firstn n (skipn k a)) -> In x a.
Proof.
  intros Hx.
  rewrite <- (firstn_skipn k a). apply in_or_app. right.
  rewrite <- (firstn_skipn n (skipn k a)). apply in_or_app. now left.
Qed.

Lemma slice_In (A : Type) (a : list A) (start final : Z) (x : A) :
  In x (slice a start final) -> In x a.
Proof. unfold slice. apply firstn_skipn_In. Qed.

Lemma slice_Forall (A : Type) (P : A -> Prop) (a : list A) (start final : Z) :
  List.Forall P a -> List.Forall P (slice a start final).
Proof.
  intros Hall. unfold slice. rewrite List.Forall_forall in *.
  intros x Hx. apply Hall. eapply slice_In. exact Hx.
Qed.

Lemma nth_error_imap (A B : Type) (f : nat -> A -> B) (l : list A) (i : nat) :
  nth_error (imap f l) i = option_map (f i) (nth_error l i).
Proof.
  revert f i. induction l as [|x l IH]; intros f i.
  - now destruct i.
  - rewrite imap_cons. destruct i as [|i]; [reflexivity|].
    simpl. now rewrite IH.
Qed.

(** ** The option rows *)

Lemma styledOptions_at_index (s : state) (i : Z) :
  at_index (styledOptions s) i =
  option_map (fun option =>
                (if i =? selectedOptionIndex s then "► " else "  ")
                ++ name option)
             (at_index (filteredOptions s) i).
Proof.
  unfold at_index, styledOptions.
  destruct (Z.ltb_spec i 0); [reflexivity|].
  rewrite nth_error_imap. rewrite Z2Nat.id by lia. reflexivity.
Qed.

(** X1. Whatever the selection, the frame has at most 8 option rows, the
    selected option is one of them, at most four rows below the first, and
    carries the marker; every other row starts with two blanks. *)
Theorem selected_option_is_shown (s : state) :
  selection_valid s ->
  let row := selectedOptionIndex s - visibleIndex s in
  (length (optionRows s) <= 8)%nat /\
  0 <= row <= 4 /\
  (exists option,
     at_index (filteredOptions s) (selectedOptionIndex s) = Some option /\
     at_index (optionRows s) row = Some ("► " ++ name option)) /\
  (forall i text, at_index (optionRows s) i = Some text -> i <> row ->
     startsWith text "  " = true).
Proof.
  intros Hv row. pose proof Hv as Hsel. unfold selection_valid in Hsel.
  assert (Hvisible : 0 <= visibleIndex s /\ 0 <= row <= 4).
  { unfold row, visibleIndex.
    destruct (Z.ltb_spec 3 (selectedOptionIndex s)); lia. }
  destruct Hvisible as [Hvisible Hrow].
  split; [|split; [exact Hrow|split]].
  - unfold optionRows. rewrite slice_length by lia. lia.
  - assert (Hsome : exists option,
              at_index (filteredOptions s) (selectedOptionIndex s)
              = Some option).
    { unfold at_index.
      destruct (Z.ltb_spec (selectedOptionIndex s) 0); [lia|].
      destruct (nth_error _ _) eqn:E; [eauto|].
      apply nth_error_None in E. lia. }
    destruct Hsome as [option Hoption].
    exists option. split; [exact Hoption|].
    unfold optionRows. rewrite slice_at_index by lia.
    replace (visibleIndex s + row) with (selectedOptionIndex s)
      by (unfold row; lia).
    rewrite styledOptions_at_index, Hoption. simpl.
    now rewrite Z.eqb_refl.
  - intros i text Hi Hne.
    assert (Hrange : 0 <= i < 8).
    { unfold at_index in Hi.
      destruct (Z.ltb_spec i 0); [discriminate|].
      assert (Hlen : (Z.to_nat i < length (optionRows s))%nat)
        by (apply nth_error_Some; congruence).
      unfold optionRows in Hlen. rewrite slice_length in Hlen by lia. lia. }
    unfold optionRows in Hi. rewrite slice_at_index in Hi by lia.
    rewrite styledOptions_at_index in Hi.
    destruct (at_index (filteredOptions s) _); [|discriminate].
    simpl in Hi. injection Hi as <-.
    destruct (Z.eqb_spec (visibleIndex s + i) (selectedOptionIndex s)) as [E|E];
      [unfold row in Hne; lia|].
    rewrite !append_String, append_EmptyString. simpl.
    apply startsWith_nil.
Qed.

Lemma selected_option_is_shown_witness :
  let s := select (initial_state
                     (normalize (List.map RString
                        ["a"; "b"; "c"; "d"; "e"; "f"; "g"; "h"; "i"; "j"]))) 6 in
  optionRows s = ["  c"; "  d"; "  e"; "  f"; "► g"; "  h"; "  i"; "  j"] /\
  (length (optionRows s) <= 8)%nat.
Proof.
  split; [reflexivity|].
  apply (selected_option_is_shown
           (select (initial_state
                      (normalize (List.map RString
                         ["a"; "b"; "c"; "d"; "e"; "f"; "g"; "h"; "i"; "j"])))
                   6)).
  unfold selection_valid. simpl. lia.
Defined.

(** ** Invariants of a waiting prompt *)

Section Invariants.
Context {host : ArraySort} (c : closure) (P : state -> Prop).

(** [P] survives the listener and a change of the edit buffer. *)
Hypothesis listener_keeps :
  forall s key s', P s -> eventListener c s key = Ok s' -> P s'.
Hypothesis buffer_keeps : forall s buffer, P s -> P (with_line s buffer).

Lemma on_event_keeps (s s' : state) (ev : event) :
  P s -> on_event c s ev = Continue s' -> P s'.
Proof.
  intros HP. destruct ev as [key buffer|typed|chunk|op]; simpl.
  - destruct (eventListener c _ key) eqn:E; [|discriminate].
    intros [= <-]. eapply listener_keeps; [|exact E].
    exact (buffer_keeps s (Some buffer) HP).
  - discriminate.
  - unfold on_data.
    destruct (negb _); [now intros [= <-]|].
    destruct (tl _) as [|command args]; [now intros [= <-]|].
    destruct (String.eqb command "keypress").
    { destruct (eventListener c s _) eqn:E; [|discriminate].
      intros [= <-]. eapply listener_keeps; eassumption. }
    destruct (String.eqb command "set_line").
    { intros [= <-]. exact (buffer_keeps s (hd_error args) HP). }
    destruct (String.eqb command "submit"); [discriminate|].
    now intros [= <-].
  - now intros [= <-].
Qed.

Lemma replay_keeps (events : list event) (s s' : state)
    (fs fs' : gmap string string) :
  P s -> replay c s fs events = Some (s', fs') -> P s'.
Proof.
  revert s fs. induction events as [|ev events IH]; intros s fs HP; simpl.
  - now intros [= <- _].
  - destruct ev as [key buffer|typed|chunk|op];
      try (destruct (on_event c s _) as [s1| |] eqn:E; [|discriminate..];
           apply IH; eapply on_event_keeps; eassumption).
    now apply IH.
Qed.

(** A prompt that ends has been through events that kept it waiting, and
    ends on the next one. *)
Lemma await_response_ends (events : list event) (s : state)
    (fs fs' : gmap string string) (response : option answer)
    (rest : list event) :
  P s -> await_response c s fs events = Done (response, fs', rest) ->
  exists s' ev, P s' /\ on_event c s' ev = Resolve response.
Proof.
  revert s fs. induction events as [|ev events IH]; intros s fs HP; simpl.
  - discriminate.
  - destruct ev as [key buffer|typed|chunk|op];
      try (destruct (on_event c s _) as [s1|r|] eqn:E;
           [apply IH; eapply on_event_keeps; eassumption
           |intros [= <- _ _]; eauto
           |discriminate]).
    now apply IH.
Qed.

End Invariants.

(** ** Scrolling *)

Lemma eventListener_scroll {host : ArraySort} (c : closure) (s s' : state)
    (key : option string) :
  scrollbar c = (questionRows c <? Z.of_nat (length (question c))) ->
  scroll_in_range c s -> eventListener c s key = Ok s' ->
  scroll_in_range c s'.
Proof.
  intros Hbar Hs. unfold scroll_in_range in *. unfold eventListener.
  destruct (key_is key "return"); [now intros [= <-]|].
  destruct (key_is key "up"); [now intros [= <-]|].
  destruct (key_is key "down"); [now intros [= <-]|].
  destruct (scrollbar c) eqn:Hscroll; cbn [andb].
  - symmetry in Hbar. apply Z.ltb_lt in Hbar.
    destruct (key_is key "pageup"); [intros [= <-]; simpl; lia|].
    destruct (key_is key "pagedown"); [intros [= <-]; simpl; lia|].
    destruct (if key_is key "escape" then _ else _); [|discriminate].
    now intros [= <-].
  - destruct (if key_is key "escape" then _ else _); [|discriminate].
    now intros [= <-].
Qed.

(** X2. However the prompt is driven, the scroll offset stays between 0 and
    the number of question lines beyond the window, so the window of the
    question is always full: it shows as many lines as it has rows, or the
    whole question when that is shorter. *)
Theorem question_window_stays_full {host : ArraySort} (rows : Z)
    (text : string) (options : list answer) (events : list event) (s : state)
    (fs fs' : gmap string string) :
  let c := make_closure rows text options in
  replay c (initial_state options) fs events = Some (s, fs') ->
  0 <= questionIndex s
    <= Z.max 0 (Z.of_nat (length (question c)) - questionRows c) /\
  length (questionLines c s) =
    Nat.min (length (question c)) (Z.to_nat (questionRows c)).
Proof.
  intros c Hreplay.
  assert (Hrange : scroll_in_range c s).
  { refine (replay_keeps c (scroll_in_range c) _ _ events _ _ _ _ _ Hreplay).
    - intros s0 key s1. now apply eventListener_scroll.
    - intros s0 buffer H. exact H.
    - unfold scroll_in_range. simpl. lia. }
  split; [exact Hrange|].
  unfold scroll_in_range in Hrange.
  assert (Hrows : 3 <= questionRows c) by (simpl; lia).
  unfold questionLines. rewrite slice_length by lia. lia.
Qed.

Lemma question_window_stays_full_witness :
  let c := make_closure 10 six_lines yes_no in
  let s := {| selectedOptionIndex := 0; questionIndex := 2; filter := "";
              filteredOptions := yes_no; line := Some "" |} in
  0 <= questionIndex s <= Z.max 0 (6 - 4) /\
  length (questionLines c s) = 4%nat.
Proof.
  exact (question_window_stays_full (host := node) 10 six_lines yes_no
           [Keypress (Some "pagedown") ""; Keypress (Some "pagedown") "";
            Keypress (Some "pagedown") ""]
           {| selectedOptionIndex := 0; questionIndex := 2; filter := "";
              filteredOptions := yes_no; line := Some "" |} ∅ ∅ eq_refl).
Defined.

(** ** The height of the frame *)

Lemma newlines_app (a b : string) :
  newlines (a ++ b) = (newlines a + newlines b)%nat.
Proof.
  induction a as [|ch a IH]; [reflexivity|].
  rewrite append_String. simpl. rewrite IH. lia.
Qed.

Lemma newlines_join (rows : list string) :
  List.Forall (fun row => newlines row = O) rows ->
  newlines (join newline rows) = Nat.pred (length rows).
Proof.
  induction 1 as [|row rows Hrow Hrows IH]; [reflexivity|].
  destruct rows as [|next rows]; [exact Hrow|].
  change (join newline (row :: next :: rows))
    with (row ++ newline ++ join newline (next :: rows)).
  rewrite !newlines_app, Hrow, IH. reflexivity.
Qed.

Lemma newlines_repeat_dash (count : nat) :
  newlines (repeat_string "-" count) = O.
Proof.
  induction count as [|count IH]; [reflexivity|].
  simpl repeat_string. now rewrite newlines_app, IH.
Qed.

Lemma split_lines_single (text : string) :
  List.Forall (fun row => newlines row = O) (split "010" text).
Proof.
  induction text as [|ch text IH]; simpl.
  - repeat constructor.
  - destruct (Ascii.eqb ch "010") eqn:E.
    + constructor; [reflexivity|exact IH].
    + destruct (split "010" text) as [|piece pieces].
      * repeat constructor. simpl. now rewrite E.
      * inversion_clear IH as [|? ? Hpiece Hpieces].
        constructor; [|exact Hpieces]. simpl. now rewrite E, Hpiece.
Qed.

Lemma styledOptions_single (s : state) :
  List.Forall (fun option => newlines (name option) = O) (filteredOptions s) ->
  List.Forall (fun row => newlines row = O) (styledOptions s).
Proof.
  unfold styledOptions. generalize (selectedOptionIndex s).
  intros selected Hall.
  assert (H : forall shift,
            List.Forall (fun row => newlines row = O)
              (imap (fun index option =>
                       (if Z.of_nat (shift + index) =? selected
                        then "► " else "  ") ++ name option)
                    (filteredOptions s))).
  { induction Hall as [|option options Hoption _ IH]; intros shift.
    - constructor.
    - rewrite imap_cons. constructor.
      + rewrite newlines_app, Hoption. now destruct (_ =? _).
      + replace (imap _ options)
          with (imap (fun index option =>
                        (if Z.of_nat (S shift + index) =? selected
                         then "► " else "  ") ++ name option) options).
        * apply IH.
        * apply imap_ext. intros i x _. unfold compose.
          now replace (S shift + i)%nat with (shift + S i)%nat by lia. }
  exact (H O).
Qed.

Lemma scrollHint_newlines (columns rows : Z) (text : string)
    (options : list answer) :
  (newlines (scrollHint columns (make_closure rows text options)) <= 2)%nat.
Proof.
  unfold scrollHint.
  destruct (scrollbar _); [|simpl; lia].
  rewrite !newlines_app, newlines_repeat_dash.
  set (last := match at_index _ _ with Some l => l | None => _ end).
  assert (Hlast : newlines last = O).
  { unfold last. destruct (at_index _ _) as [l|] eqn:E; [|reflexivity].
    unfold at_index in E. destruct (_ <? 0); [discriminate|].
    apply nth_error_In in E.
    pose proof (split_lines_single text) as Hall.
    rewrite List.Forall_forall in Hall. now apply Hall. }
  rewrite Hlast. simpl. lia.
Qed.

Lemma filterHint_newlines (s : state) :
  newlines (filter s) = O -> newlines (filterHint s) = O.
Proof.
  intros Hfilter. unfold filterHint.
  destruct (truthy_string (filter s)); [|reflexivity].
  now rewrite !newlines_app, Hfilter.
Qed.

(** X3. In a terminal with room for three question lines above the rows
    kept for the options ([rows >= 3 + min(12, n + 4)] for [n] options), a
    frame whose option names and filter hold no line break has, with the line
    the cursor is left on, no more lines than the terminal has rows. *)
Theorem frame_fits_terminal (columns rows : Z) (text : string)
    (options : list answer) (s : state) :
  let c := make_closure rows text options in
  List.Forall (fun option => newlines (name option) = O) (filteredOptions s) ->
  newlines (filter s) = O ->
  (length (filteredOptions s) <= length options)%nat ->
  0 <= questionIndex s ->
  3 + Z.min 12 (Z.of_nat (length options) + 4) <= rows ->
  Z.of_nat (newlines (getPrompt columns c s)) + 1 <= rows.
Proof.
  intros c Hnames Hfilter Hshown Hscroll Hrows.
  assert (Hwindow : questionRows c
                    = rows - Z.min 12 (Z.of_nat (length options) + 4))
    by (simpl; lia).
  assert (Hvisible : 0 <= visibleIndex s).
  { unfold visibleIndex. destruct (Z.ltb_spec 3 (selectedOptionIndex s)); lia. }
  unfold getPrompt. rewrite !newlines_app.
  rewrite (newlines_join (questionLines c s))
    by (apply slice_Forall, split_lines_single).
  rewrite (newlines_join (optionRows s))
    by (apply slice_Forall, styledOptions_single, Hnames).
  rewrite (filterHint_newlines s Hfilter).
  pose proof (scrollHint_newlines columns rows text options) as Hhint.
  fold c in Hhint.
  assert (Hquestion : (length (questionLines c s)
                       <= Z.to_nat (questionRows c))%nat)
    by (unfold questionLines; rewrite slice_length by lia; lia).
  assert (Hoptions : (length (optionRows s)
                      <= Nat.min 8 (length (filteredOptions s)))%nat).
  { unfold optionRows. rewrite slice_length by lia.
    unfold styledOptions. rewrite length_imap. lia. }
  change (newlines clear) with O. change (newlines newline) with 1%nat.
  lia.
Qed.

Lemma frame_fits_terminal_witness :
  let c := make_closure 10 six_lines yes_no in
  let s := {| selectedOptionIndex := 1; questionIndex := 2; filter := "";
              filteredOptions := yes_no; line := Some "" |} in
  newlines (getPrompt 80 c s) = 8%nat /\
  Z.of_nat (newlines (getPrompt 80 c s)) + 1 <= 10.
Proof.
  split; [reflexivity|].
  apply (frame_fits_terminal 80 10 six_lines yes_no
           {| selectedOptionIndex := 1; questionIndex := 2; filter := "";
              filteredOptions := yes_no; line := Some "" |}).
  - repeat constructor.
  - reflexivity.
  - simpl. lia.
  - simpl. lia.
  - simpl. lia.
Defined.

(** * The prompt as a whole *)

Section PromptFacts.
Context {host : ArraySort}.

(** X4. On a valid selection [up] undoes [down] and [down] undoes [up],
    also across the ends of the list. *)
Theorem up_and_down_are_inverse (c : closure) (s : state) :
  selection_valid s ->
  (exists below, eventListener c s (Some "down") = Ok below /\
                 eventListener c below (Some "up") = Ok s) /\
  (exists above, eventListener c s (Some "up") = Ok above /\
                 eventListener c above (Some "down") = Ok s).
Proof.
  intros Hv. unfold selection_valid in Hv.
  set (n := Z.of_nat (length (filteredOptions s))) in *.
  split.
  - exists (select s (if selectedOptionIndex s =? n - 1 then 0
                      else Z.min (n - 1) (selectedOptionIndex s + 1))).
    split; [apply eventListener_down|].
    rewrite eventListener_up. cbv zeta. simpl filteredOptions.
    simpl selectedOptionIndex. fold n. rewrite select_select.
    match goal with
    | |- Ok (select s ?index) = Ok s =>
        replace index with (selectedOptionIndex s);
          [now rewrite select_same|]
    end.
    destruct (Z.eqb_spec (selectedOptionIndex s) (n - 1)).
    + rewrite Z.eqb_refl. lia.
    + destruct (Z.eqb_spec (Z.min (n - 1) (selectedOptionIndex s + 1)) 0); lia.
  - exists (select s (if selectedOptionIndex s =? 0 then n - 1
                      else Z.max 0 (selectedOptionIndex s - 1))).
    split; [apply eventListener_up|].
    rewrite eventListener_down. cbv zeta. simpl filteredOptions.
    simpl selectedOptionIndex. fold n. rewrite select_select.
    match goal with
    | |- Ok (select s ?index) = Ok s =>
        replace index with (selectedOptionIndex s);
          [now rewrite select_same|]
    end.
    destruct (Z.eqb_spec (selectedOptionIndex s) 0).
    + destruct (Z.eqb_spec (n - 1) (n - 1)); lia.
    + destruct (Z.eqb_spec (Z.max 0 (selectedOptionIndex s - 1)) (n - 1)); lia.
Qed.

Lemma filterOptions_incl (options : list answer) (f : string) (o : answer) :
  In o (filterOptions options f) -> In o options.
Proof.
  unfold filterOptions.
  destruct (length (matching options f) =? 0)%nat; [tauto|].
  unfold matching. destruct (negb (truthy_string f)); [tauto|].
  intros Hin. apply (Permutation_in _ (sort_Permutation _ _)) in Hin.
  now apply List.filter_In in Hin.
Qed.

Lemma filterOptions_length (options : list answer) (f : string) :
  (length (filterOptions options f) <= length options)%nat.
Proof.
  unfold filterOptions.
  destruct (length (matching options f) =? 0)%nat; [lia|].
  unfold matching. destruct (negb (truthy_string f)); [lia|].
  rewrite (Permutation_length (sort_Permutation _ _)).
  apply List.filter_length_le.
Qed.

Lemma eventListener_shows_filter (c : closure) (s s' : state)
    (key : option string) :
  shows_filter c s -> eventListener c s key = Ok s' -> shows_filter c s'.
Proof.
  unfold shows_filter, eventListener. intros Hs.
  destruct (key_is key "return"); [now intros [= <-]|].
  destruct (key_is key "up"); [now intros [= <-]|].
  destruct (key_is key "down"); [now intros [= <-]|].
  destruct (scrollbar c && key_is key "pageup"); [now intros [= <-]|].
  destruct (scrollbar c && key_is key "pagedown"); [now intros [= <-]|].
  destruct (if key_is key "escape" then _ else _); [|discriminate].
  now intros [= <-].
Qed.

(** X5. However the prompt is driven, the options shown are the ones that
    lines 83-91 compute for the filter of the moment, each of them is an
    option of the prompt, there are no more of them than options, and the
    selection is the index of one of them. *)
Theorem shown_options_follow_filter (rows : Z) (text : string)
    (options : list answer) (events : list event) (s : state)
    (fs fs' : gmap string string) :
  options <> [] ->
  replay (make_closure rows text options) (initial_state options) fs events
    = Some (s, fs') ->
  filteredOptions s = filterOptions options (filter s) /\
  (forall o, In o (filteredOptions s) -> In o options) /\
  (length (filteredOptions s) <= length options)%nat /\
  selection_valid s.
Proof.
  intros Hne Hreplay.
  assert (Hshows : shows_filter (make_closure rows text options) s).
  { refine (replay_keeps _ (shows_filter _) _ _ events _ _ _ _ _ Hreplay).
    - intros s0 key s1. apply eventListener_shows_filter.
    - intros s0 buffer H. exact H.
    - unfold shows_filter. simpl. now rewrite filterOptions_empty_filter. }
  unfold shows_filter in Hshows. simpl in Hshows.
  split; [exact Hshows|].
  split; [intros o; rewrite Hshows; apply filterOptions_incl|].
  split; [rewrite Hshows; apply filterOptions_length|].
  eapply replay_valid; [| |exact Hreplay]; [exact Hne|].
  unfold selection_valid. simpl. destruct options; [congruence|simpl; lia].
Qed.

Lemma on_event_Resolve (c : closure) (s : state) (ev : event)
    (response : option answer) :
  on_event c s ev = Resolve response ->
  response = at_index (filteredOptions s) (selectedOptionIndex s).
Proof.
  destruct ev as [key buffer|typed|chunk|op]; simpl.
  - destruct (eventListener c _ key); discriminate.
  - now intros [= <-].
  - unfold on_data.
    destruct (negb _); [discriminate|].
    destruct (tl _) as [|command args]; [discriminate|].
    destruct (String.eqb command "keypress").
    { destruct (eventListener c s _); discriminate. }
    destruct (String.eqb command "set_line"); [discriminate|].
    destruct (String.eqb command "submit"); [|discriminate].
    now intros [= <-].
  - discriminate.
Qed.

Lemma normalize_In (raw : list raw_option) (o : answer) :
  In o (normalize raw) ->
  exists option, In option raw /\ truthy option = true /\
                 value_of o = raw_value option.
Proof.
  unfold normalize. intros Hin.
  apply list_elem_of_In, elem_of_lookup_imap in Hin.
  destruct Hin as [i [option [-> Hlookup]]].
  apply list_elem_of_lookup_2, list_elem_of_In, List.filter_In in Hlookup.
  destruct Hlookup as [Hin Htruthy].
  exists option. repeat split; try assumption.
  now destruct option.
Qed.

Lemma eventListener_shows_options (c : closure) (s : state)
    (key : option string) (s' : state) :
  (forall o, In o (filteredOptions s) -> In o (options c)) ->
  eventListener c s key = Ok s' ->
  forall o, In o (filteredOptions s') -> In o (options c).
Proof.
  intros Hs. unfold eventListener.
  destruct (key_is key "return"); [now intros [= <-]|].
  destruct (key_is key "up"); [now intros [= <-]|].
  destruct (key_is key "down"); [now intros [= <-]|].
  destruct (scrollbar c && key_is key "pageup"); [now intros [= <-]|].
  destruct (scrollbar c && key_is key "pagedown"); [now intros [= <-]|].
  destruct (if key_is key "escape" then _ else _); [|discriminate].
  intros [= <-] o. apply filterOptions_incl.
Qed.

(** What [askQuestion] returns is the value of one of its options. *)
Lemma askQuestion_value (text : string) (raw : list raw_option)
    (w w' : world) (v : value) :
  List.filter truthy raw <> [] ->
  askQuestion text raw w = Done (v, w') ->
  exists o, In o (normalize raw) /\ v = value_of o.
Proof.
  intros Hne. rewrite askQuestion_options by exact Hne.
  destruct (await_response _ _ _ _) as [[[[response|] fs1] rest]| | |] eqn:E;
    try discriminate.
  intros [= <- _].
  set (c := make_closure (rows w) text (normalize raw)) in E.
  destruct (await_response_ends c
              (fun s => forall o, In o (filteredOptions s) -> In o (options c))
              (eventListener_shows_options c)
              (fun s0 buffer H0 => H0)
              (input w) (initial_state (normalize raw)) (fs w) fs1
              (Some response) rest (fun o Ho => Ho) E)
    as [s [ev [Hs Hev]]].
  apply on_event_Resolve in Hev. symmetry in Hev.
  unfold at_index in Hev. destruct (_ <? 0); [discriminate|].
  apply nth_error_In, Hs in Hev. eauto.
Qed.

(** X6. With options, what [askQuestion] returns is the value of one of the
    truthy options it was called with: the string itself for an option given
    as a string, the [value] of an option given as an object. *)
Theorem askQuestion_returns_an_option (text : string)
    (raw : list raw_option) (w w' : world) (v : value) :
  List.filter truthy raw <> [] ->
  askQuestion text raw w = Done (v, w') ->
  exists option, In option raw /\ truthy option = true /\
                 v = raw_value option.
Proof.
  intros Hne Hask.
  destruct (askQuestion_value text raw w w' v Hne Hask) as [o [Hin ->]].
  apply normalize_In in Hin as [option [Hin [Htruthy Hvalue]]].
  exists option. auto.
Qed.

Lemma eventListener_buffered (c : closure) (s : state) (key : option string)
    (buffer : string) :
  line s = Some buffer -> exists s', eventListener c s key = Ok s'.
Proof.
  intros Hline. unfold eventListener.
  repeat match goal with
         | |- context [if ?b then Ok _ else _] => destruct b; [eauto|]
         end.
  rewrite Hline. destruct (key_is key "escape"); eauto.
Qed.

Lemma await_response_keyboard (c : closure) (events : list event) (s : state)
    (fs : gmap string string) :
  options c <> [] -> selection_valid s ->
  List.Forall not_injected events ->
  match await_response c s fs events with
  | Done (response, _, _) => response <> None
  | Pending => True
  | _ => False
  end.
Proof.
  intros Hne Hv Hall. revert s fs Hv.
  induction Hall as [|ev events Hev _ IH]; intros s fs Hv; simpl; [exact I|].
  destruct ev as [key buffer|typed|chunk|op].
  - cbn [on_event].
    destruct (eventListener_buffered c
                {| selectedOptionIndex := selectedOptionIndex s;
                   questionIndex := questionIndex s;
                   filter := filter s;
                   filteredOptions := filteredOptions s;
                   line := Some buffer |} key buffer eq_refl) as [s' Hs'].
    rewrite Hs'. apply IH.
    eapply eventListener_valid; [exact Hne| |exact Hs']. exact Hv.
  - cbn [on_event]. destruct (at_index_valid s Hv) as [r ->]. discriminate.
  - destruct Hev.
  - now apply IH.
Qed.

(** X7. Driven by the keyboard alone, that is without chunks from the parent
    process, [askQuestion] does not throw: it returns or keeps waiting. *)
Theorem keyboard_never_crashes (text : string) (raw : list raw_option)
    (w : world) :
  List.Forall not_injected (input w) ->
  askQuestion text raw w <> Crash.
Proof.
  intros Hall. unfold askQuestion.
  destruct (List.filter truthy raw) as [|first others] eqn:Hraw.
  - simpl. assert (H : forall events fs, await_answer fs events <> Crash).
    { intros events. induction events as [|ev events IH]; intros fs; simpl.
      - discriminate.
      - destruct ev as [key buffer|typed|chunk|op]; try apply IH.
        destruct (truthy_string typed); [discriminate|apply IH]. }
    specialize (H (input w) (fs w)).
    destruct (await_answer _ _) as [[[answer fs'] rest]| | |]; congruence.
  - cbn [length Nat.eqb].
    set (options := imap to_answer (first :: others)).
    pose proof (await_response_keyboard
                  (make_closure (rows w) text options) (input w)
                  (initial_state options) (fs w)) as H.
    destruct (await_response _ _ _ _) as [[[[response|] fs'] rest]| | |];
      try discriminate.
    all: exfalso; apply H; try exact Hall; try reflexivity.
    all: try (unfold options; rewrite imap_cons; discriminate).
    all: unfold selection_valid, options; rewrite imap_cons; simpl; lia.
Qed.

Lemma hd_split_colon (s : string) :
  hd_error (split ":" s) = Some (before_colon s).
Proof.
  induction s as [|ch s IH]; simpl; [reflexivity|].
  destruct (Ascii.eqb ch ":"); [reflexivity|].
  destruct (split ":" s); [discriminate|].
  simpl in *. now injection IH as ->.
Qed.

(** X8. The argument of an injected command ends at its first colon: after
    [set_line] with [str] the edit buffer holds [str] up to its first colon,
    and [keypress] with [str] is the key of that name. *)
Theorem injected_argument_stops_at_colon (c : closure) (s : state)
    (str : string) :
  on_event c s (Data ("►:set_line:" ++ str)) =
    Continue (with_line s (Some (before_colon str))) /\
  on_event c s (Data ("►:keypress:" ++ str)) =
    match eventListener c s (Some (before_colon str)) with
    | Ok s' => Continue s'
    | Throw => Raise
    end.
Proof.
  pose proof (hd_split_colon str) as Hhd.
  destruct (split ":" str) as [|piece pieces] eqn:E; [discriminate|].
  injection Hhd as ->.
  split; cbn [on_event]; unfold on_data;
    rewrite !append_String, append_EmptyString;
    cbn [startsWith negb Ascii.eqb Bool.eqb andb split tl];
    rewrite E; reflexivity.
Qed.

(** X9. An injected [set_line] without text leaves the edit buffer
    undefined. The next injected key that edits the filter makes the prompt
    throw, unless it is [escape], which puts the empty buffer back. *)
Theorem set_line_without_text (c : closure) (s : state) (key : string) :
  on_event c s (Data "►:set_line") = Continue (with_line s None) /\
  (no_colon key -> filter_edit c (Some key) = true -> key <> "escape" ->
   on_event c (with_line s None) (Data ("►:keypress:" ++ key)) = Raise) /\
  on_event c (with_line s None) (Data "►:keypress:escape") =
    on_event c s (Data "►:keypress:escape").
Proof.
  split; [reflexivity|]. split.
  - intros Hkey Hedit Hescape. cbn [on_event].
    rewrite on_data_keypress by exact Hkey.
    rewrite eventListener_filter_edit by exact Hedit.
    replace (key_is (Some key) "escape") with false; [reflexivity|].
    symmetry. now apply String.eqb_neq.
  - cbn [on_event]. rewrite !(on_data_keypress c _ "escape" eq_refl).
    rewrite !eventListener_filter_edit
      by (unfold filter_edit; simpl; now rewrite !andb_false_r).
    reflexivity.
Qed.

End PromptFacts.

Lemma up_and_down_are_inverse_witness :
  let c := make_closure 24 "Sure?" yes_no in
  let s := select (initial_state yes_no) 1 in
  exists below, eventListener (host := node) c s (Some "down") = Ok below /\
                eventListener (host := node) c below (Some "up") = Ok s.
Proof.
  refine (proj1 (up_and_down_are_inverse (host := node)
                   (make_closure 24 "Sure?" yes_no)
                   (select (initial_state yes_no) 1) _)).
  unfold selection_valid. simpl. lia.
Defined.

Lemma shown_options_follow_filter_witness :
  let s := {| selectedOptionIndex := 0; questionIndex := 0; filter := "n";
              filteredOptions :=
                [{| ident := Fresh 1; name := "No"; value_of := VStr "No" |}];
              line := Some "N" |} in
  filteredOptions s = filterOptions (host := node) yes_no "n" /\
  selection_valid s.
Proof.
  destruct (shown_options_follow_filter (host := node) 24 "Sure?" yes_no
              [Keypress (Some "down") ""; Keypress (Some "n") "N"]
              {| selectedOptionIndex := 0; questionIndex := 0; filter := "n";
                 filteredOptions :=
                   [{| ident := Fresh 1; name := "No";
                       value_of := VStr "No" |}];
                 line := Some "N" |} ∅ ∅)
    as [Hshown [_ [_ Hvalid]]].
  - discriminate.
  - reflexivity.
  - split; [exact Hshown|exact Hvalid].
Defined.

Lemma askQuestion_returns_an_option_witness :
  exists option,
    In option [RFalsy; RString "Yes"; RObject 7 "No" (VNum 0)] /\
    truthy option = true /\ VNum 0 = raw_value option.
Proof.
  apply (askQuestion_returns_an_option (host := node) "Sure?"
           [RFalsy; RString "Yes"; RObject 7 "No" (VNum 0)]
           (tty [Keypress (Some "up") ""; Line ""]) (tty []) (VNum 0)).
  - discriminate.
  - reflexivity.
Defined.

Lemma keyboard_never_crashes_witness :
  askQuestion (host := node) "Sure?" [RString "Yes"; RString "No"]
    (tty [Keypress None "x"; External (Unlink "notes.md");
          Keypress (Some "escape") ""]) <> Crash.
Proof.
  apply (keyboard_never_crashes (host := node)).
  simpl. repeat constructor.
Defined.

Lemma set_line_without_text_witness :
  askQuestion (host := node) "Sure?" [RString "Yes"; RString "No"]
    (tty [Data "►:set_line"; Data "►:keypress:x"]) = Crash /\
  on_event (host := node) (make_closure 24 "Sure?" yes_no)
    (with_line (initial_state yes_no) None) (Data "►:keypress:x") = Raise.
Proof.
  split; [reflexivity|].
  apply (set_line_without_text (host := node)
           (make_closure 24 "Sure?" yes_no) (initial_state yes_no) "x");
    [reflexivity|reflexivity|discriminate].
Defined.

(** * The template file, in general *)

Section TemplateFacts.
Context {host : ArraySort}.

Lemma askQuestion_keeps_process (text : string) (raw : list raw_option)
    (w w' : world) (v : value) :
  askQuestion text raw w = Done (v, w') ->
  hooks w' = hooks w /\ rows w' = rows w.
Proof.
  unfold askQuestion.
  destruct (length (List.filter truthy raw) =? 0)%nat.
  - destruct (await_answer _ _) as [[[answer fs'] rest]| | |];
      try discriminate.
    now intros [= _ <-].
  - destruct (await_response _ _ _ _) as [[[[response|] fs'] rest]| | |];
      try discriminate.
    now intros [= _ <-].
Qed.

Lemma remove_first_Permutation (event : string) (hooks : list string) :
  In event hooks -> Permutation (event :: remove_first event hooks) hooks.
Proof.
  induction hooks as [|h hooks IH]; simpl; [tauto|].
  destruct (String.eqb_spec h event) as [->|Hne]; [reflexivity|].
  intros [E|Hin]; [congruence|].
  rewrite perm_swap. now rewrite IH.
Qed.

Lemma remove_first_In (event other : string) (hooks : list string) :
  other <> event -> In other hooks -> In other (remove_first event hooks).
Proof.
  intros Hne. induction hooks as [|h hooks IH]; simpl; [tauto|].
  destruct (String.eqb_spec h event) as [->|Hh].
  - intros [E|Hin]; [congruence|exact Hin].
  - intros [E|Hin]; [now left|right; auto].
Qed.

Lemma removed_hooks (file : string) (w : world) (registered : list string) :
  hooks w = (registered ++ ["beforeExit"; "SIGINT"; "SIGQUIT"; "SIGTERM"])%list ->
  Permutation (hooks (removed file w)) registered.
Proof.
  intros Hhooks. unfold removed, process_off, with_fs. cbn [hooks].
  rewrite Hhooks.
  set (all := (registered ++ _)%list).
  assert (H1 : In "beforeExit" all) by (apply in_or_app; right; simpl; tauto).
  assert (H2 : In "SIGINT" all) by (apply in_or_app; right; simpl; tauto).
  assert (H3 : In "SIGQUIT" all) by (apply in_or_app; right; simpl; tauto).
  assert (H4 : In "SIGTERM" all) by (apply in_or_app; right; simpl; tauto).
  set (r1 := remove_first "beforeExit" all).
  assert (P1 : Permutation ("beforeExit" :: r1) all)
    by now apply remove_first_Permutation.
  assert (I2 : In "SIGINT" r1) by (apply remove_first_In; [discriminate|auto]).
  assert (I3 : In "SIGQUIT" r1) by (apply remove_first_In; [discriminate|auto]).
  assert (I4 : In "SIGTERM" r1) by (apply remove_first_In; [discriminate|auto]).
  set (r2 := remove_first "SIGINT" r1).
  assert (P2 : Permutation ("SIGINT" :: r2) r1)
    by now apply remove_first_Permutation.
  assert (J3 : In "SIGQUIT" r2) by (apply remove_first_In; [discriminate|auto]).
  assert (J4 : In "SIGTERM" r2) by (apply remove_first_In; [discriminate|auto]).
  set (r3 := remove_first "SIGQUIT" r2).
  assert (P3 : Permutation ("SIGQUIT" :: r3) r2)
    by now apply remove_first_Permutation.
  assert (K4 : In "SIGTERM" r3) by (apply remove_first_In; [discriminate|auto]).
  set (r4 := remove_first "SIGTERM" r3).
  assert (P4 : Permutation ("SIGTERM" :: r4) r3)
    by now apply remove_first_Permutation.
  apply (Permutation_app_inv_r
           ["beforeExit"; "SIGINT"; "SIGQUIT"; "SIGTERM"]).
  fold all. rewrite <- P1, <- P2, <- P3, <- P4.
  rewrite <- Permutation_middle, <- Permutation_middle,
    <- Permutation_middle, <- Permutation_middle.
  now rewrite app_nil_r.
Qed.

(** A round keeps the listeners of the process when the menu is asked
    again; when it breaks, the cleanup has run and the result is [false] or
    a text. *)
Lemma menu_round_ends (text file content : string) (w : world)
    (r : round) :
  menu_round text file content w = Done r ->
  match r with
  | Break v w' =>
      exists w0, w' = removed file w0 /\ hooks w0 = hooks w /\
                 (v = VBool false \/ exists result, v = VStr result)
  | Again w' => hooks w' = hooks w
  end.
Proof.
  unfold menu_round.
  destruct (askQuestion text (menu file) w) as [[task w1]| | |] eqn:Hmenu;
    try discriminate.
  apply askQuestion_keeps_process in Hmenu as [Hhooks _].
  unfold execSync.
  assert (Hleave : forall result w2, hooks w2 = hooks w ->
            (result = VBool false \/ exists text, result = VStr text) ->
            leave file result w2 = Done r ->
            match r with
            | Break v w' =>
                exists w0, w' = removed file w0 /\ hooks w0 = hooks w /\
                           (v = VBool false \/ exists result, v = VStr result)
            | Again w' => hooks w' = hooks w
            end).
  { intros result w2 Hw2 Hresult. rewrite leave_removes.
    intros [= <-]. exists w2. auto. }
  destruct (strict_eq task (VStr "openEditor")); cbv zeta;
    (destruct (strict_eq task (VStr "continue"));
     [|destruct (strict_eq task (VStr "abort"));
       [apply Hleave; [exact Hhooks|now left]
       |now intros [= <-]]]).
  all: destruct (negb (existsSync file (fs w1)));
    [|destruct (readFile file (fs w1)) as [result|]; [|discriminate]].
  all: match goal with
       | |- context [String.eqb ?r ?c] => destruct (String.eqb r c)
       end; try (apply Hleave; [exact Hhooks|right; eauto]).
  all: match goal with
       | |- context [askQuestion unmodified_question ?o ?w2] =>
           destruct (askQuestion unmodified_question o w2)
             as [[yesno w3]| | |] eqn:Hconfirm
       end; try discriminate.
  all: apply askQuestion_keeps_process in Hconfirm as [Hhooks3 _];
    simpl in Hhooks3;
    destruct (strict_eq yesno (VStr "Yes"));
    [apply Hleave; [congruence|right; eauto]|].
  all: intros [= <-]; congruence.
Qed.

Lemma menu_loop_leaves (fuel : nat) (text file content : string)
    (w w' : world) (v : value) :
  menu_loop fuel text file content w = Done (v, w') ->
  exists w0, w' = removed file w0 /\ hooks w0 = hooks w /\
             (v = VBool false \/ exists result, v = VStr result).
Proof.
  revert w. induction fuel as [|fuel IH]; intros w; [discriminate|].
  cbn [menu_loop].
  destruct (menu_round text file content w) as [[result w1|w1]| | |] eqn:Hround;
    try discriminate; apply menu_round_ends in Hround.
  - now intros [= <- <-].
  - intros H. destruct (IH _ H) as [w0 [? [? ?]]].
    exists w0. repeat split; congruence || assumption.
Qed.

(** X10. Whenever [askFileInput] returns, with [false] after [abort] or with
    a text after [continue], the file it worked on is gone and its cleanup
    is registered on no event any more: the process has the listeners it had
    before the call. *)
Theorem askFileInput_leaves_nothing_behind (fuel : nat)
    (text file content : string) (w w' : world) (v : value) :
  askFileInput fuel text file content w = Done (v, w') ->
  fs w' !! file = None /\
  Permutation (hooks w') (hooks w) /\
  (v = VBool false \/ exists result, v = VStr result).
Proof.
  unfold askFileInput. intros H.
  apply menu_loop_leaves in H as [w0 [-> [Hhooks Hv]]].
  split; [apply lookup_delete_eq|]. split; [|exact Hv].
  apply removed_hooks. rewrite Hhooks. cbn [hooks process_on with_fs].
  now rewrite <- !app_assoc.
Qed.

(** X11. After [continue], a file whose text differs from the initial
    content is the result as it stands: the flow asks nothing more, removes
    the file and returns the text. *)
Theorem modified_template_is_returned (fuel : nat)
    (text file content : string) (w w1 : world) (edited : string) :
  askQuestion text (menu file) w = Done (VStr "continue", w1) ->
  fs w1 !! file = Some edited -> edited <> content ->
  menu_loop (S fuel) text file content w =
    Done (VStr edited, removed file w1) /\
  fs (removed file w1) !! file = None.
Proof.
  intros Hmenu Hfile Hedited. split; [|apply lookup_delete_eq].
  cbn [menu_loop]. unfold menu_round. rewrite Hmenu.
  cbn [strict_eq String.eqb Ascii.eqb Bool.eqb].
  unfold execSync, existsSync, readFile. rewrite Hfile. cbn [negb].
  destruct (String.eqb_spec edited content); [contradiction|].
  now rewrite leave_removes.
Qed.

End TemplateFacts.

Lemma askFileInput_leaves_nothing_behind_witness :
  let w := {| fs := {[ "notes.md" := "old" ]}; rows := 24;
              hooks := ["SIGINT"];
              input := [External (WriteFile "notes.md" "bye");
                        Data "►:keypress:down"; Data "►:submit"] |} in
  askFileInput (host := node) 1 "Edit?" "notes.md" "hello" w =
    Done (VStr "bye",
          {| fs := ∅; rows := 24; hooks := ["SIGINT"]; input := [] |}) /\
  (∅ : gmap string string) !! "notes.md" = None.
Proof.
  split; [vm_compute; reflexivity|].
  refine (proj1
    (askFileInput_leaves_nothing_behind (host := node) 1 "Edit?" "notes.md"
       "hello"
       {| fs := {[ "notes.md" := "old" ]}; rows := 24; hooks := ["SIGINT"];
          input := [External (WriteFile "notes.md" "bye");
                    Data "►:keypress:down"; Data "►:submit"] |}
       {| fs := ∅; rows := 24; hooks := ["SIGINT"]; input := [] |}
       (VStr "bye") _)).
  vm_compute. reflexivity.
Defined.

Lemma modified_template_is_returned_witness :
  menu_loop (host := node) 1 "Edit?" "notes.md" "hello"
    (started "notes.md" "hello"
       (tty [External (WriteFile "notes.md" "bye");
             Data "►:keypress:down"; Data "►:submit"])) =
  Done (VStr "bye", tty []).
Proof.
  refine (eq_trans (proj1
    (modified_template_is_returned (host := node) 0 "Edit?" "notes.md" "hello"
       (started "notes.md" "hello"
          (tty [External (WriteFile "notes.md" "bye");
                Data "►:keypress:down"; Data "►:submit"]))
       (with_fs (started "notes.md" "hello" (tty []))
          {[ "notes.md" := "bye" ]})
       "bye" _ _ _)) _).
  - vm_compute. reflexivity.
  - vm_compute. reflexivity.
  - discriminate.
  - vm_compute. reflexivity.
Defined.

(** * The pre-commit hook *)

(** ** Splitting and joining *)

Lemma append_assoc (a b c : string) : (a ++ b) ++ c = a ++ (b ++ c).
Proof.
  induction a as [|ch a IH]; [reflexivity|].
  rewrite !append_String. now rewrite IH.
Qed.

Lemma split_not_nil (sep : ascii) (s : string) : split sep s <> [].
Proof.
  destruct s as [|ch s]; simpl; [discriminate|].
  destruct (Ascii.eqb ch sep); [discriminate|].
  destruct (split sep s); discriminate.
Qed.

Lemma join_String (sep : string) (ch : ascii) (piece : string)
    (pieces : list string) :
  join sep (String ch piece :: pieces) = String ch (join sep (piece :: pieces)).
Proof. destruct pieces; [reflexivity|]. cbn [join]. apply append_String. Qed.

(** Joining what was split gives the text back. *)
Lemma join_split (sep : ascii) (s : string) :
  join (String sep "") (split sep s) = s.
Proof.
  induction s as [|ch s IH]; [reflexivity|]. simpl.
  destruct (Ascii.eqb_spec ch sep) as [->|Hne].
  - pose proof (split_not_nil sep s) as Hnil.
    destruct (split sep s) as [|piece pieces]; [congruence|].
    change (join (String sep "") ("" :: piece :: pieces))
      with ("" ++ String sep "" ++ join (String sep "") (piece :: pieces)).
    rewrite IH. reflexivity.
  - pose proof (split_not_nil sep s) as Hnil.
    destruct (split sep s) as [|piece pieces]; [congruence|].
    rewrite join_String. now rewrite IH.
Qed.

Lemma split_free (sep : ascii) (s : string) :
  free_of sep s = true -> split sep s = [s].
Proof.
  induction s as [|ch s IH]; simpl; [reflexivity|].
  intros H. apply andb_prop in H as [Hch Hs].
  apply negb_true_iff in Hch. rewrite Hch, (IH Hs). reflexivity.
Qed.

Lemma split_app_sep (sep : ascii) (a b : string) :
  split sep (a ++ String sep b) = (split sep a ++ split sep b)%list.
Proof.
  induction a as [|ch a IH].
  - rewrite append_EmptyString. simpl. now rewrite Ascii.eqb_refl.
  - rewrite append_String. simpl. rewrite IH.
    destruct (Ascii.eqb ch sep); [reflexivity|].
    pose proof (split_not_nil sep a) as Hnil.
    destruct (split sep a); [congruence|reflexivity].
Qed.

Lemma pop_snoc (A : Type) (l : list A) (x : A) :
  pop (l ++ [x])%list = (Some x, l).
Proof.
  induction l as [|y l IH]; [reflexivity|].
  cbn [app pop]. rewrite IH.
  destruct (l ++ [x])%list eqn:E; [|reflexivity].
  now destruct l.
Qed.

Lemma pop_not_nil (A : Type) (l : list A) :
  l <> [] -> exists x l', pop l = (Some x, l') /\ l = (l' ++ [x])%list.
Proof.
  intros Hne. destruct (exists_last Hne) as [l' [x ->]].
  exists x, l'. split; [apply pop_snoc|reflexivity].
Qed.

Lemma join_snoc (sep : string) (l : list string) (x : string) :
  l <> [] -> join sep (l ++ [x])%list = join sep l ++ sep ++ x.
Proof.
  induction l as [|y l IH]; [congruence|]. intros _.
  destruct l as [|z l]; [reflexivity|].
  change (join sep ((y :: z :: l) ++ [x])%list)
    with (y ++ sep ++ join sep ((z :: l) ++ [x])%list).
  rewrite IH by discriminate.
  change (join sep (y :: z :: l)) with (y ++ sep ++ join sep (z :: l)).
  now rewrite !append_assoc.
Qed.

Lemma all_digits_free (s : string) : all_digits s = true -> free_of "-" s = true.
Proof.
  induction s as [|ch s IH]; simpl; [reflexivity|].
  intros H. apply andb_prop in H as [Hch Hs]. rewrite (IH Hs), andb_true_r.
  destruct (Ascii.eqb_spec ch "-") as [->|]; [discriminate|reflexivity].
Qed.

Lemma issue_free (issue : string) :
  issue = "release" \/ only_digits issue = true -> free_of "-" issue = true.
Proof.
  intros [-> | H]; [reflexivity|].
  apply andb_prop in H as [_ H]. now apply all_digits_free.
Qed.

Lemma level_free (level : string) :
  In level changeLevels -> free_of "-" level = true.
Proof. intros [<-|[<-|[<-|[]]]]; reflexivity. Qed.

Lemma level_known (level : string) :
  existsb (String.eqb level) changeLevels = true <-> In level changeLevels.
Proof.
  rewrite existsb_exists. split.
  - intros [x [Hin Heq]]. apply String.eqb_eq in Heq. now subst.
  - intros Hin. exists level. split; [exact Hin|apply String.eqb_refl].
Qed.

Lemma split_branch_name (user level issue : string) :
  free_of "-" level = true -> free_of "-" issue = true ->
  split "-" (branch_name user level issue) =
  (split "-" user ++ [level; issue])%list.
Proof.
  intros Hlevel Hissue. unfold branch_name.
  rewrite !append_String, !append_EmptyString.
  rewrite split_app_sep, split_app_sep.
  now rewrite (split_free _ _ Hlevel), (split_free _ _ Hissue).
Qed.

(** ** What the hook accepts *)

Lemma hook_accepts (git user level issue : string) :
  In level changeLevels ->
  issue = "release" \/ only_digits issue = true ->
  toLowerCase user = toLowerCase git ->
  preCommitHook git (branch_name user level issue) = Returned tt.
Proof.
  intros Hlevel Hissue Huser. unfold preCommitHook.
  rewrite split_branch_name
    by (apply level_free, Hlevel || apply issue_free, Hissue).
  pose proof (split_not_nil "-" user) as Hnil.
  replace (length (split "-" user ++ [level; issue]) <? 3)%nat with false
    by (symmetry; apply Nat.ltb_ge; rewrite length_app;
        destruct (split "-" user); [congruence|simpl; lia]).
  replace (split "-" user ++ [level; issue])%list
    with ((split "-" user ++ [level]) ++ [issue])%list
    by (now rewrite <- app_assoc).
  rewrite pop_snoc, pop_snoc, join_split.
  replace (negb (issue =? "release")%string && negb (only_digits issue))
    with false.
  - rewrite (proj2 (level_known level) Hlevel). cbn [negb].
    rewrite Huser, String.eqb_refl. reflexivity.
  - symmetry. destruct Hissue as [-> | ->]; [reflexivity|].
    apply andb_false_r.
Qed.

(** X12. The hook accepts a branch name exactly when it reads
    [user-level-issue] with [level] one of [major], [minor], [patch], with
    [issue] the word [release] or a number, and with [user], dashes included,
    the git user name up to the case of the letters. *)
Theorem hook_accepts_exactly (git branch : string) :
  preCommitHook git branch = Returned tt <->
  exists user level issue,
    branch = branch_name user level issue /\
    In level changeLevels /\
    (issue = "release" \/ only_digits issue = true) /\
    toLowerCase user = toLowerCase git.
Proof.
  split.
  - unfold preCommitHook.
    destruct (Nat.ltb_spec (length (split "-" branch)) 3) as [|Hlen];
      [discriminate|].
    destruct (pop_not_nil _ (split "-" branch) (split_not_nil _ _))
      as [issue [front [Hpop Hsplit]]].
    rewrite Hpop.
    assert (Hfront : (2 <= length front)%nat)
      by (rewrite Hsplit, length_app in Hlen; simpl in Hlen; lia).
    destruct (pop_not_nil _ front) as [level [users [Hpop' Hfront']]];
      [destruct front; [simpl in Hfront; lia|discriminate]|].
    rewrite Hpop'.
    assert (Husers : users <> [])
      by (intros ->; rewrite Hfront' in Hfront; simpl in Hfront; lia).
    destruct (negb (issue =? "release")%string && negb (only_digits issue))
      eqn:Hissue; [discriminate|].
    destruct (existsb (String.eqb level) changeLevels) eqn:Hlevel;
      [|discriminate].
    cbn [negb].
    destruct (String.eqb_spec (toLowerCase (join "-" users))
                (toLowerCase git)) as [Huser|]; [|discriminate].
    intros _. exists (join "-" users), level, issue.
    repeat split.
    + rewrite <- (join_split "-" branch) at 1.
      rewrite Hsplit, Hfront'. unfold branch_name.
      rewrite join_snoc by (destruct users; [congruence|discriminate]).
      rewrite join_snoc by exact Husers.
      now rewrite !append_assoc.
    + now apply level_known.
    + apply andb_false_iff in Hissue as [H|H]; apply negb_false_iff in H.
      * left. now apply String.eqb_eq.
      * now right.
    + exact Huser.
  - intros [user [level [issue [-> [Hlevel [Hissue Huser]]]]]].
    now apply hook_accepts.
Qed.

(** ** The message of the commit *)

Lemma trailing_digits_all (digits : string) :
  only_digits digits = true -> trailing_digits digits = Some digits.
Proof.
  unfold only_digits. destruct digits as [|ch digits]; [discriminate|].
  cbn [truthy_string andb]. revert ch.
  induction digits as [|next digits IH]; intros ch H.
  - simpl in *. apply andb_prop in H as [-> _]. reflexivity.
  - cbn [all_digits] in H. apply andb_prop in H as [Hch Hrest].
    cbn [trailing_digits] in *. rewrite (IH next Hrest).
    now rewrite Hch, String.eqb_refl.
Qed.

Lemma length_append (a b : string) :
  String.length (a ++ b) = (String.length a + String.length b)%nat.
Proof.
  induction a as [|ch a IH]; [reflexivity|].
  rewrite append_String. simpl. now rewrite IH.
Qed.

Lemma trailing_digits_after_dash (front digits : string) :
  only_digits digits = true ->
  trailing_digits (front ++ String "-" digits) = Some digits.
Proof.
  intros Hdigits. induction front as [|ch front IH].
  - rewrite append_EmptyString. cbn [trailing_digits].
    rewrite (trailing_digits_all _ Hdigits). reflexivity.
  - rewrite append_String. cbn [trailing_digits]. rewrite IH.
    replace (digits =? front ++ String "-" digits)%string with false;
      [now rewrite andb_false_r|].
    symmetry. apply String.eqb_neq. intros E.
    apply (f_equal String.length) in E.
    rewrite length_append in E. simpl in E. lia.
Qed.

Lemma trailing_digits_release (front : string) :
  trailing_digits (front ++ "release") = None.
Proof.
  induction front as [|ch front IH]; [reflexivity|].
  rewrite append_String. cbn [trailing_digits]. rewrite IH.
  destruct front; [|now rewrite andb_false_r].
  now rewrite andb_false_r.
Qed.

(** X13. On a branch that the hook accepts, the commit of
    [commitAndPushChanges] closes the issue the branch is named after; on a
    release branch, which the hook accepts as well, no commit is made: the
    name ends with no digits and the error about the issue number is
    thrown. *)
Theorem commit_closes_the_issue (git user level issue : string) :
  In level changeLevels ->
  toLowerCase user = toLowerCase git ->
  (only_digits issue = true ->
   commitMessage git (branch_name user level issue) =
     Returned ("Closes #" ++ issue)) /\
  commitMessage git (branch_name user level "release") =
    ErrorThrown ("Could not get the issue number from the branch name: "
                 ++ branch_name user level "release").
Proof.
  intros Hlevel Huser. unfold commitMessage. split.
  - intros Hissue. rewrite hook_accepts by auto.
    unfold branch_name.
    replace (user ++ "-" ++ level ++ "-" ++ issue)
      with ((user ++ "-" ++ level) ++ String "-" issue)
      by (now rewrite !append_assoc).
    now rewrite trailing_digits_after_dash.
  - rewrite hook_accepts by auto.
    unfold branch_name.
    replace (user ++ "-" ++ level ++ "-" ++ "release")
      with ((user ++ "-" ++ level ++ "-") ++ "release")
      by (now rewrite !append_assoc).
    now rewrite trailing_digits_release.
Qed.

Lemma hook_accepts_exactly_witness :
  exists user level issue,
    "Ada-L-minor-12" = branch_name user level issue /\
    In level changeLevels /\
    (issue = "release" \/ only_digits issue = true) /\
    toLowerCase user = toLowerCase "ada-l".
Proof.
  apply (proj1 (hook_accepts_exactly "ada-l" "Ada-L-minor-12")).
  reflexivity.
Defined.

Lemma commit_closes_the_issue_witness :
  commitMessage "ada" (branch_name "Ada" "patch" "7") = Returned "Closes #7" /\
  commitMessage "ada" (branch_name "Ada" "patch" "release") =
    ErrorThrown
      "Could not get the issue number from the branch name: Ada-patch-release".
Proof.
  destruct (commit_closes_the_issue "ada" "Ada" "patch" "7")
    as [Hissue Hrelease].
  - simpl. tauto.
  - reflexivity.
  - split; [apply Hissue; reflexivity|exact Hrelease].
Defined.

(** * The menu of tasks *)

(** ** What Node's sort makes of a comparator that compares ranks *)

Lemma ordered_app (A : Type) (R : A -> A -> Prop) (l1 l2 : list A) :
  ForallOrdPairs R (l1 ++ l2) <->
  ForallOrdPairs R l1 /\ ForallOrdPairs R l2 /\
  (forall x y, In x l1 -> In y l2 -> R x y).
Proof.
  induction l1 as [|a l1 IH]; simpl.
  - split; [intros H; repeat split; [constructor|exact H|tauto]|tauto].
  - split.
    + intros H. inversion_clear H as [|? ? Hall Hrest].
      apply IH in Hrest as [H1 [H2 Hcross]].
      rewrite List.Forall_forall in Hall.
      repeat split; [constructor| |].
      * apply List.Forall_forall. intros x Hx. apply Hall, in_or_app. now left.
      * exact H1.
      * exact H2.
      * intros x y [<-|Hx] Hy; [apply Hall, in_or_app; now right|auto].
    + intros [H1 [H2 Hcross]]. inversion_clear H1 as [|? ? Hall Hrest].
      constructor.
      * apply Forall_app. split; [exact Hall|].
        apply List.Forall_forall. intros y Hy. apply Hcross; [now left|exact Hy].
      * apply IH. repeat split; auto.
Qed.

Lemma nth_error_pieces (A : Type) (l : list A) (n : nat) (x : A) :
  nth_error l n = Some x ->
  skipn n l = x :: skipn (S n) l /\ firstn (S n) l = (firstn n l ++ [x])%list.
Proof.
  revert n. induction l as [|y l IH]; intros [|n]; try discriminate.
  - now intros [= ->].
  - intros H. destruct (IH n H) as [Hskip Hfirst].
    split; [exact Hskip|]. cbn [firstn app]. now rewrite <- Hfirst.
Qed.

Section NodeRank.
Context {A : Type} (comparefn : A -> A -> Z) (rank : A -> Z).
Local Open Scope list_scope.

(** The comparator tells "before" exactly for the smaller rank. *)
Hypothesis compare_rank : forall a b, comparefn a b < 0 <-> rank a < rank b.

#[local] Abbreviation up := (fun a b : A => rank a <= rank b).

Lemma search_place (rounds : nat) (sorted : list A) (pivot : A)
    (left right : nat) :
  ForallOrdPairs up sorted ->
  (left <= right <= length sorted)%nat ->
  List.Forall (fun x => rank x <= rank pivot) (firstn left sorted) ->
  List.Forall (fun x => rank pivot < rank x) (skipn right sorted) ->
  (right - left < rounds)%nat ->
  let place := V8.search comparefn rounds sorted pivot left right in
  List.Forall (fun x => rank x <= rank pivot) (firstn place sorted) /\
  List.Forall (fun x => rank pivot < rank x) (skipn place sorted).
Proof.
  intros Hsorted. revert left right.
  induction rounds as [|rounds IH]; intros left right Hrange Hleft Hright Hrounds;
    [lia|].
  simpl. destruct (Nat.ltb_spec left right) as [Hlt|Hge].
  - pose proof (middle_below left right Hlt) as Hmid.
    revert Hmid. generalize (Nat.div2 (right - left)). intros half Hmid.
    destruct (nth_error sorted (left + half)) as [element|] eqn:E;
      [|apply nth_error_None in E; lia].
    destruct (nth_error_pieces _ _ _ _ E) as [Hskip Hfirst].
    assert (Hsplit : sorted = firstn (left + half) sorted
                              ++ element :: skipn (S (left + half)) sorted)
      by (now rewrite <- Hskip, firstn_skipn).
    rewrite Hsplit in Hsorted. apply ordered_app in Hsorted
      as [_ [Hback Hcross]].
    inversion_clear Hback as [|? ? Hafter _].
    destruct (Z.ltb_spec (comparefn pivot element) 0) as [Hcmp|Hcmp].
    + apply compare_rank in Hcmp. apply IH; try assumption; try lia.
      rewrite Hskip. constructor; [exact Hcmp|].
      eapply List.Forall_impl; [|exact Hafter]. simpl. intros y Hy. lia.
    + assert (Hle : rank element <= rank pivot).
      { destruct (Z.lt_ge_cases (rank pivot) (rank element)) as [H|H];
          [apply compare_rank in H; lia|lia]. }
      apply IH; try assumption; try lia.
      rewrite Hfirst. apply Forall_app. split; [|repeat constructor; exact Hle].
      apply List.Forall_forall. intros x Hx.
      specialize (Hcross x element Hx (or_introl eq_refl)). simpl in Hcross.
      lia.
  - assert (left = right) by lia. subst right. split; assumption.
Qed.

Lemma insert_pivot_ranked (sorted : list A) (pivot : A) :
  ForallOrdPairs up sorted ->
  ForallOrdPairs up (V8.insert_pivot comparefn sorted pivot) /\
  forall r, List.filter (fun x => rank x =? r)
              (V8.insert_pivot comparefn sorted pivot)
            = List.filter (fun x => rank x =? r) (sorted ++ [pivot]).
Proof.
  intros Hsorted. unfold V8.insert_pivot.
  destruct (search_place (S (length sorted)) sorted pivot 0 (length sorted)
              Hsorted) as [Hfront Hback]; try lia.
  { constructor. }
  { rewrite skipn_all. constructor. }
  set (place := V8.search _ _ _ _ _ _) in *.
  pose proof (firstn_skipn place sorted) as Hsplit.
  rewrite <- Hsplit in Hsorted. apply ordered_app in Hsorted
    as [H1 [H2 Hcross]].
  rewrite List.Forall_forall in Hfront, Hback.
  split.
  - apply ordered_app. repeat split; [exact H1| |].
    + constructor; [|exact H2].
      apply List.Forall_forall. intros y Hy. specialize (Hback y Hy). lia.
    + intros x y Hx [<-|Hy]; [now apply Hfront|now apply Hcross].
  - intros r. rewrite !List.filter_app.
    replace (List.filter (fun x => rank x =? r) sorted)
      with (List.filter (fun x => rank x =? r) (firstn place sorted)
            ++ List.filter (fun x => rank x =? r) (skipn place sorted))
      by (rewrite <- List.filter_app; now rewrite Hsplit).
    cbn [List.filter].
    destruct (Z.eqb_spec (rank pivot) r) as [Hr|Hr]; [|now rewrite app_nil_r].
    replace (List.filter (fun x => rank x =? r) (skipn place sorted))
      with (@nil A); [now rewrite app_nil_r|].
    symmetry. apply filter_none. apply List.Forall_forall. intros y Hy.
    specialize (Hback y Hy). apply Z.eqb_neq. lia.
Qed.

Lemma BinaryInsertionSort_ranks (rest run : list A) :
  ForallOrdPairs up run ->
  ForallOrdPairs up (V8.BinaryInsertionSort comparefn run rest) /\
  forall r, List.filter (fun x => rank x =? r)
              (V8.BinaryInsertionSort comparefn run rest)
            = List.filter (fun x => rank x =? r) (run ++ rest).
Proof.
  unfold V8.BinaryInsertionSort. revert run.
  induction rest as [|pivot rest IH]; intros run Hrun; simpl.
  - rewrite app_nil_r. auto.
  - destruct (insert_pivot_ranked run pivot Hrun) as [Hsorted Hsame].
    destruct (IH _ Hsorted) as [Hall Hfilter].
    split; [exact Hall|]. intros r.
    rewrite Hfilter, !List.filter_app, Hsame, !List.filter_app.
    rewrite <- app_assoc. f_equal.
    change (pivot :: rest) with ([pivot] ++ rest).
    now rewrite List.filter_app.
Qed.

Lemma run_length_ordered (rest front : list A) (previous : A) (n : nat)
    (descending : bool) :
  let R := fun a b => if descending then rank b < rank a
                      else rank a <= rank b in
  ForallOrdPairs R (front ++ [previous]) ->
  exists m, V8.run_length comparefn descending previous rest n = (n + m)%nat /\
            ForallOrdPairs R (front ++ previous :: firstn m rest).
Proof.
  intros R. revert front previous n.
  induction rest as [|current rest IH]; intros front previous n Hord; simpl.
  - exists O. split; [lia|exact Hord].
  - assert (Hstep : (if descending then 0 <=? comparefn current previous
                     else comparefn current previous <? 0) = false ->
                    R previous current).
    { unfold R. destruct descending; intros Hcmp.
      - apply Z.leb_gt in Hcmp. now apply compare_rank.
      - apply Z.ltb_ge in Hcmp.
        destruct (Z.lt_ge_cases (rank current) (rank previous)) as [H|H];
          [apply compare_rank in H; lia|lia]. }
    destruct (if descending then _ else _).
    + exists O. split; [lia|exact Hord].
    + specialize (Hstep eq_refl).
      destruct (IH (front ++ [previous]) current (S n)) as [m [Hm Hall]].
      * apply ordered_app. repeat split; [exact Hord|repeat constructor|].
        intros x y Hx [<-|[]]. apply in_app_or in Hx as [Hx|[<-|[]]];
          [|exact Hstep].
        pose proof (ordered_before front [] x previous Hord Hx) as Hxp.
        unfold R in *. destruct descending; lia.
      * exists (S m). split; [lia|].
        rewrite <- app_assoc in Hall. exact Hall.
Qed.

Lemma descending_run (run : list A) :
  ForallOrdPairs (fun a b => rank b < rank a) run ->
  ForallOrdPairs up (rev run) /\
  forall r, List.filter (fun x => rank x =? r) (rev run)
            = List.filter (fun x => rank x =? r) run.
Proof.
  induction 1 as [|a run Hall _ [IHsorted IHfilter]]; [split; [constructor|auto]|].
  rewrite List.Forall_forall in Hall. split.
  - cbn [rev]. apply ordered_app. repeat split;
      [exact IHsorted|repeat constructor|].
    intros x y Hx [<-|[]]. apply in_rev in Hx. specialize (Hall x Hx).
    simpl. lia.
  - intros r. cbn [rev]. rewrite List.filter_app, IHfilter. cbn [List.filter].
    destruct (Z.eqb_spec (rank a) r) as [Hr|Hr]; [|now rewrite app_nil_r].
    rewrite (filter_none (fun x => rank x =? r) run); [reflexivity|].
    apply List.Forall_forall. intros x Hx. specialize (Hall x Hx).
    apply Z.eqb_neq. lia.
Qed.

(** Node's sort puts the elements in the order of their ranks and leaves
    elements of equal rank in the order they had. *)
Lemma ArrayTimSortImpl_ranks (workArray : list A) :
  ForallOrdPairs up (V8.ArrayTimSortImpl comparefn workArray) /\
  forall r, List.filter (fun x => rank x =? r)
              (V8.ArrayTimSortImpl comparefn workArray)
            = List.filter (fun x => rank x =? r) workArray.
Proof.
  unfold V8.ArrayTimSortImpl.
  destruct workArray as [|x [|y rest]].
  - split; [constructor|reflexivity].
  - split; [repeat constructor|reflexivity].
  - cbn [length Nat.ltb Nat.leb V8.CountAndMakeRun].
    set (descending := comparefn y x <? 0).
    destruct (run_length_ordered rest [x] y 2 descending) as [m [Hm Hrun]].
    { repeat constructor. unfold descending.
      destruct (Z.ltb_spec (comparefn y x) 0) as [H|H];
        [now apply compare_rank|].
      destruct (Z.lt_ge_cases (rank y) (rank x)) as [H'|H'];
        [apply compare_rank in H'; lia|lia]. }
    rewrite Hm. cbn [Nat.add firstn skipn app] in *.
    set (run := x :: y :: firstn m rest) in *.
    assert (Hmade : ForallOrdPairs up (if descending then rev run else run) /\
              forall r, List.filter (fun x => rank x =? r)
                          (if descending then rev run else run)
                        = List.filter (fun x => rank x =? r) run).
    { destruct descending; [now apply descending_run|auto]. }
    destruct Hmade as [Hsorted Hsame].
    destruct (BinaryInsertionSort_ranks (skipn m rest) _ Hsorted)
      as [Hall Hfilter].
    split; [exact Hall|]. intros r.
    rewrite Hfilter, List.filter_app, Hsame, <- List.filter_app.
    unfold run. cbn [app]. now rewrite firstn_skipn.
Qed.

End NodeRank.

(** ** The tasks offered *)

Section Menu.
Context {host : ArraySort}.
Import Select.

Lemma task_options_from_In (taskEntries : list task) (index : nat)
    (o : task_option) :
  In o (task_options_from index taskEntries) ->
  exists task, In task taskEntries /\ isAvailable task = true /\
               option_value o = taskName task.
Proof.
  revert index. induction taskEntries as [|task rest IH]; intros index;
    simpl; [tauto|].
  destruct (isAvailable task) eqn:E.
  - intros [<-|Hin].
    + exists task. auto.
    + destruct (IH _ Hin) as [t [? [? ?]]]. exists t. auto.
  - intros Hin. destruct (IH _ Hin) as [t [? [? ?]]]. exists t. auto.
Qed.

Lemma task_options_from_nil (taskEntries : list task) (index : nat) :
  (forall task, In task taskEntries -> isAvailable task = false) ->
  task_options_from index taskEntries = [].
Proof.
  revert index. induction taskEntries as [|task rest IH]; intros index Hnone;
    simpl; [reflexivity|].
  rewrite (Hnone task (or_introl eq_refl)). apply IH.
  intros t Ht. apply Hnone. now right.
Qed.

Lemma as_option_truthy (offered : list task_option) :
  List.filter truthy (List.map as_option offered) = List.map as_option offered.
Proof. induction offered as [|o offered IH]; simpl; now rewrite ?IH. Qed.

(** X14. When no task is available [select] throws, whatever the input.
    Otherwise the task it goes on to run is one of the available tasks: no
    input makes it run a task that is not available. *)
Theorem select_runs_an_available_task (prompt : string)
    (taskEntries : list task) (w : world) :
  ((forall task, In task taskEntries -> isAvailable task = false) ->
   select prompt taskEntries w = Crash) /\
  (forall v w', select prompt taskEntries w = Done (v, w') ->
     exists task, In task taskEntries /\ isAvailable task = true /\
                  v = VStr (taskName task)).
Proof.
  unfold select, task_options. split.
  - intros Hnone. now rewrite task_options_from_nil.
  - intros v w'.
    destruct (task_options_from 0 taskEntries) as [|o options] eqn:E;
      [discriminate|].
    cbn [length Nat.eqb]. intros Hask.
    apply askQuestion_value in Hask.
    + destruct Hask as [a [Hin ->]].
      apply normalize_In in Hin as [option [Hin [_ ->]]].
      apply in_map_iff in Hin as [chosen [<- Hin]].
      apply (Permutation_in _ (sort_Permutation _ _)) in Hin.
      rewrite <- E in Hin.
      apply task_options_from_In in Hin as [task [? [? Hname]]].
      exists task. simpl. rewrite Hname. auto.
    + rewrite as_option_truthy. intros Hnil.
      apply map_eq_nil in Hnil.
      apply (f_equal (@length _)) in Hnil.
      rewrite (Permutation_length (sort_Permutation _ _)) in Hnil.
      discriminate.
Qed.

End Menu.

Import Select.

(** X15. Under Node (fewer than 64 options, which is where module [V8] is
    Node's sort; the registry has 9 tasks) the tasks are offered by priority,
    highest first, and tasks of equal priority in the order of the registry.
    So the first option, the one return picks when no key was pressed
    before, is a task of the highest priority among those available. *)
Theorem menu_is_ordered_by_priority (taskEntries : list task) :
  (length (task_options taskEntries) < 64)%nat ->
  let offered := sort (ArraySort := node) by_priority
                   (task_options taskEntries) in
  ForallOrdPairs (fun a b => priority b <= priority a) offered /\
  (forall p, List.filter (fun o => priority o =? p) offered
             = List.filter (fun o => priority o =? p)
                 (task_options taskEntries)) /\
  (forall first, hd_error offered = Some first ->
     (forall o, In o (task_options taskEntries) ->
                priority o <= priority first) /\
     forall prompt w typed rest,
       select (host := node) prompt taskEntries
         (with_input w (fs w) (Line typed :: rest)) =
       Done (VStr (option_value first), with_input w (fs w) rest)).
Proof.
  intros _ offered.
  destruct (ArrayTimSortImpl_ranks by_priority (fun o => - priority o)
              ltac:(intros a b; unfold by_priority; lia)
              (task_options taskEntries)) as [Hsorted Hsame].
  fold (v8_sort by_priority (task_options taskEntries)) in Hsorted, Hsame.
  change (v8_sort by_priority (task_options taskEntries)) with offered
    in Hsorted, Hsame.
  assert (Hordered : ForallOrdPairs (fun a b => priority b <= priority a)
                       offered).
  { eapply ForallOrdPairs_impl; [|exact Hsorted]. simpl. intros a b H. lia. }
  split; [exact Hordered|]. split.
  - intros p. specialize (Hsame (- p)).
    erewrite (List.filter_ext _ (fun o => - priority o =? - p)),
      (List.filter_ext (fun o => priority o =? p)
         (fun o => - priority o =? - p)); [exact Hsame| |];
      intros o; destruct (Z.eqb_spec (priority o) p),
                  (Z.eqb_spec (- priority o) (- p)); lia || reflexivity.
  - intros first Hfirst.
    destruct offered as [|first' others] eqn:E; [discriminate|].
    injection Hfirst as ->. split.
    + intros o Ho.
      apply (Permutation_in _
               (Permutation_sym (sort_Permutation (ArraySort := node)
                                   by_priority (task_options taskEntries))))
        in Ho.
      fold offered in Ho. change (sort by_priority _) with offered in Ho.
      rewrite E in Ho. destruct Ho as [<-|Ho]; [lia|].
      inversion_clear Hordered as [|? ? Hall _].
      rewrite List.Forall_forall in Hall. now apply Hall.
    + intros prompt w typed rest. unfold select.
      assert (Hlen : length (task_options taskEntries)
                     = length (first :: others)).
      { rewrite <- E. symmetry. apply Permutation_length.
        apply (sort_Permutation (ArraySort := node)). }
      destruct (task_options taskEntries) as [|o options] eqn:Eo;
        [discriminate|].
      cbn [length Nat.eqb].
      change (sort by_priority (o :: options)) with offered. rewrite E.
      unfold askQuestion. rewrite as_option_truthy. reflexivity.
Qed.

Lemma select_runs_an_available_task_witness :
  select (host := node) "What would you like to do?" sample_registry
    (tty [Data "►:keypress:down"; Data "►:submit"])
  = Done (VStr "showProgress", tty []) /\
  exists task, In task sample_registry /\ isAvailable task = true /\
               VStr "showProgress" = VStr (taskName task).
Proof.
  split; [reflexivity|].
  apply (proj2 (select_runs_an_available_task (host := node)
                  "What would you like to do?" sample_registry
                  (tty [Data "►:keypress:down"; Data "►:submit"]))
           (VStr "showProgress") (tty [])).
  reflexivity.
Defined.

Lemma menu_is_ordered_by_priority_witness :
  (length (task_options sample_registry) < 64)%nat /\
  List.map option_value
    (sort (ArraySort := node) by_priority (task_options sample_registry))
  = ["showBacklog"; "showProgress"; "createRelease"; "exit"] /\
  ForallOrdPairs (fun a b => priority b <= priority a)
    (sort (ArraySort := node) by_priority (task_options sample_registry)).
Proof.
  assert (Hfew : (length (task_options sample_registry) < 64)%nat)
    by (vm_compute; lia).
  split; [exact Hfew|]. split; [reflexivity|].
  exact (proj1 (menu_is_ordered_by_priority sample_registry Hfew)).
Defined.
